(** * email-intel: the scan job engine, its canonicalizer and its extractor

    A shallow embedding of [services/canonicalize.py],
    [services/extraction.py], [models.py] and the job part of [app.py],
    followed by the properties of the engine that the specification states.

    Conventions of the embedding.
    - A Python [str] is a [string]; its characters are the code points
      U+0000 to U+00FF (one [ascii] each).  [str.lower], [str.strip] and the
      character classes of the pattern are given on that range.
    - A Python [int] is a [Z]; a [set] of [str] is a [gset string]; a table
      with a unique key is a [gmap] from that key to the row.
    - Wall-clock readings are rationals.  The float-valued metrics are
      computed on exact rationals; the floats of the code round, so [mbps]
      and [eta_seconds] are those of the code up to that rounding.
    - The store is the pair of its two tables.  A statement of the store
      that raises is met in two places: the insert of a job row whose
      integers do not fit their columns, and a move of a worker whose
      opening read fails. *)

From Stdlib Require Import ZArith QArith Qround Qminmax Lia Bool Ascii String List.
From stdpp Require Import base option list gmap sets strings.
Import ListNotations.

Set Warnings "-register-all,-clear-no-such-hyp".
Local Open Scope string_scope.
Local Open Scope Z_scope.

(** ** Python [str] operations used by the sources *)

Module Py.

Definition ord (c : ascii) : N := N_of_ascii c.

(** [str.isspace] on one character, as used by [str.strip()]:
    TAB..CR, FS..US, SPACE, NEL and NBSP. *)
Definition isspace (c : ascii) : bool :=
  let n := ord c in
  ((9 <=? n) && (n <=? 13) || (28 <=? n) && (n <=? 32)
   || (n =? 133) || (n =? 160))%N.

(** Upper-case letters: A-Z, and the Latin-1 block without the
    multiplication sign. *)
Definition isupper (c : ascii) : bool :=
  let n := ord c in
  ((65 <=? n) && (n <=? 90) || (192 <=? n) && (n <=? 214)
   || (216 <=? n) && (n <=? 222))%N.

Definition lower_char (c : ascii) : ascii :=
  if isupper c then ascii_of_N (ord c + 32) else c.

Fixpoint lower (s : string) : string :=
  match s with
  | EmptyString => EmptyString
  | String c s' => String (lower_char c) (lower s')
  end.

Fixpoint lstrip (s : string) : string :=
  match s with
  | EmptyString => EmptyString
  | String c s' => if isspace c then lstrip s' else s
  end.

Fixpoint rstrip (s : string) : string :=
  match s with
  | EmptyString => EmptyString
  | String c s' =>
      match rstrip s' with
      | EmptyString => if isspace c then EmptyString else String c EmptyString
      | r => String c r
      end
  end.

Definition strip (s : string) : string := rstrip (lstrip s).

Fixpoint startswith (s p : string) : bool :=
  match p, s with
  | EmptyString, _ => true
  | String c p', String d s' => Ascii.eqb d c && startswith s' p'
  | String _ _, EmptyString => false
  end.

Fixpoint endswith (s p : string) : bool :=
  String.eqb s p ||
  match s with
  | EmptyString => false
  | String _ s' => endswith s' p
  end.

Fixpoint take (n : nat) (s : string) : string :=
  match n, s with
  | S n', String c s' => String c (take n' s')
  | _, _ => EmptyString
  end.

Fixpoint drop (n : nat) (s : string) : string :=
  match n, s with
  | S n', String _ s' => drop n' s'
  | _, _ => s
  end.

Definition len (s : string) : Z := Z.of_nat (String.length s).

(** A slice bound: negative bounds count from the end, and the result is
    clamped to [0 .. len s]. *)
Definition bound (s : string) (i : Z) : Z :=
  Z.max 0 (Z.min (len s) (if i <? 0 then i + len s else i)).

(** [s[i:j]] *)
Definition slice (s : string) (i j : Z) : string :=
  let lo := bound s i in
  let hi := bound s j in
  take (Z.to_nat (hi - lo)) (drop (Z.to_nat lo) s).

(** [x or d] on strings: the empty string is falsy. *)
Definition str_or (x d : string) : string :=
  match x with EmptyString => d | _ => x end.

(** [x or d] on integers: zero is falsy. *)
Definition int_or (x d : Z) : Z := if x =? 0 then d else x.

End Py.

(** ** services/canonicalize.py *)

(** [e] is a [str], on which [(e or "")] is [e] itself. *)
Definition canon_email (e : string) : string :=
  let e := Py.lower (Py.strip (Py.str_or e "")) in
  if Py.startswith e "<" && Py.endswith e ">" then Py.slice e 1 (-1) else e.

(** ** services/extraction.py *)

(** *** The pattern and its matcher

    [EMAIL_RE] is a sequence of literals and greedy character-class
    repetitions with a lower bound; the matcher below is the backtracking
    matcher of [re] on that fragment: a repetition first takes as many
    characters as it can and gives them back one by one until the rest of
    the pattern matches. *)

Inductive item : Type :=
| Lit (c : ascii)
| Rep (cls : ascii -> bool) (lo : nat).

Definition between (a b : N) (c : ascii) : bool :=
  ((a <=? Py.ord c) && (Py.ord c <=? b))%N.

Definition is_alpha (c : ascii) : bool := between 65 90 c || between 97 122 c.
Definition is_digit (c : ascii) : bool := between 48 57 c.
Definition one_of (set : string) (c : ascii) : bool :=
  existsb (Ascii.eqb c) (list_ascii_of_string set).

(** [[A-Za-z0-9._%+\-]], [[A-Za-z0-9.\-]] and [[A-Za-z]].  On the code
    points modelled here [re.IGNORECASE] adds nothing to these classes. *)
Definition local_cls (c : ascii) : bool := is_alpha c || is_digit c || one_of "._%+-" c.
Definition domain_cls (c : ascii) : bool := is_alpha c || is_digit c || one_of ".-" c.
Definition tld_cls (c : ascii) : bool := is_alpha c.

Definition EMAIL_RE : list item :=
  [Rep local_cls 1; Lit "@"; Rep domain_cls 1; Lit "."; Rep tld_cls 2].

(** Number of leading characters of [s] in [cls]. *)
Fixpoint span (cls : ascii -> bool) (s : string) : nat :=
  match s with
  | String c s' => if cls c then S (span cls s') else O
  | EmptyString => O
  end.

(** Try the continuation [k] after [n], [n-1], ..., [lo] characters. *)
Fixpoint backtrack (k : string -> option nat) (s : string) (lo n : nat) : option nat :=
  if (n <? lo)%nat then None
  else match k (Py.drop n s) with
       | Some l => Some (n + l)%nat
       | None => match n with
                 | O => None
                 | S n' => backtrack k s lo n'
                 end
       end.

(** Length of the match of [items] at the start of [s], if there is one. *)
Fixpoint match_here (items : list item) (s : string) : option nat :=
  match items with
  | [] => Some O
  | Lit c :: r =>
      match s with
      | String c' s' => if Ascii.eqb c c' then S <$> match_here r s' else None
      | EmptyString => None
      end
  | Rep cls lo :: r => backtrack (match_here r) s lo (span cls s)
  end.

(** [re.finditer]: non-overlapping matches, leftmost first.  An empty match
    moves on by one character. *)
Fixpoint finditer_from (fuel : nat) (re : list item) (s : string) : list string :=
  match fuel with
  | O => []
  | S fuel' =>
      match s with
      | EmptyString => []
      | String _ s' =>
          match match_here re s with
          | Some (S l) => Py.take (S l) s :: finditer_from (fuel' - l) re (Py.drop (S l) s)
          | _ => finditer_from fuel' re s'
          end
      end
  end.

Definition finditer (re : list item) (s : string) : list string :=
  finditer_from (String.length s) re s.

(** The strings of a pattern, independently of the matcher. *)
Fixpoint re_lang (items : list item) (s : string) : Prop :=
  match items with
  | [] => s = EmptyString
  | Lit c :: r => exists s', s = String c s' /\ re_lang r s'
  | Rep cls lo :: r =>
      exists a b, s = a +:+ b /\ (lo <= String.length a)%nat /\
                  span cls a = String.length a /\ re_lang r b
  end.

(** *** The file system, as far as the scan reads it *)

(** [size = None]: [os.path.getsize] raises [OSError];
    [content = None]: [open] raises.  The content is the text after the
    permissive UTF-8 decoding. *)
Inductive node : Type :=
| File (size : option Z) (content : option string)
| Dir (entries : list (string * node)).

Fixpoint split_on (sep : ascii) (cur : string) (s : string) : list string :=
  match s with
  | EmptyString => [cur]
  | String c s' =>
      if Ascii.eqb c sep then cur :: split_on sep EmptyString s'
      else split_on sep (cur +:+ String c EmptyString) s'
  end.

(** A path is resolved from the root, one component after the other; empty
    components are skipped.  Links are not modelled. *)
Definition components (p : string) : list string :=
  filter (fun x => x <> EmptyString) (split_on "/" EmptyString p).

Definition child (n : node) (name : string) : option node :=
  match n with
  | Dir es => snd <$> List.find (fun e => String.eqb (fst e) name) es
  | File _ _ => None
  end.

(** The walk along the components, from the node [n] below the directories
    [up] (the nearest first).  No component leads on from a file.  In a
    directory [.] stays and [..] goes one up, and stays at the root; a
    directory of a file system has no entry of these two names, so the
    entries are looked up first. *)
Fixpoint resolve_from (up : list node) (n : node) (cs : list string)
  : option (list node * node) :=
  match cs with
  | [] => Some (up, n)
  | c :: cs' =>
      match n with
      | File _ _ => None
      | Dir _ =>
          match child n c with
          | Some n' => resolve_from (n :: up) n' cs'
          | None =>
              if String.eqb c "." then resolve_from up n cs'
              else if String.eqb c ".." then
                match up with
                | [] => resolve_from [] n cs'
                | p :: up' => resolve_from up' p cs'
                end
              else None
          end
      end
  end.

(** What [os.stat(p)] finds.  A path that ends in a separator names a
    directory only. *)
Definition resolve (root : node) (p : string) : option node :=
  match resolve_from [] root (components p) with
  | Some (_, File sz c) => if Py.endswith p "/" then None else Some (File sz c)
  | Some (_, d) => Some d
  | None => None
  end.

Definition isabs (p : string) : bool := Py.startswith p "/".
Definition exists_ (root : node) (p : string) : bool := bool_decide (is_Some (resolve root p)).
Definition isfile (root : node) (p : string) : bool :=
  match resolve root p with Some (File _ _) => true | _ => false end.

(** [os.path.join(a, b)] *)
Definition join (a b : string) : string :=
  if Py.startswith b "/" then b
  else if String.eqb a "" || Py.endswith a "/" then a +:+ b
  else a +:+ "/" +:+ b.

(** [os.walk(top)] top-down, with the loop of [iter_files] over it: the
    files of a directory first, then its sub-directories in turn. *)
Fixpoint walk (top : string) (n : node) : list (string * Z) :=
  match n with
  | File _ _ => []
  | Dir es =>
      flat_map (fun e => match snd e with
                         | File (Some sz) _ => [(join top (fst e), sz)]
                         | _ => []
                         end) es
      ++ flat_map (fun e => match snd e with
                            | Dir _ => walk (join top (fst e)) (snd e)
                            | File _ _ => []
                            end) es
  end.

Definition iter_files (root : node) (path : string) : list (string * Z) :=
  match resolve root path with
  | Some (File sz _) => match sz with Some n => [(path, n)] | None => [] end
  | Some d => walk path d
  | None => []
  end.

(** [str.rfind] of one character; [-1] when absent. *)
Fixpoint rfind_from (i best : Z) (c : ascii) (s : string) : Z :=
  match s with
  | EmptyString => best
  | String x s' => rfind_from (i + 1) (if Ascii.eqb x c then i else best) c s'
  end.
Definition rfind (s : string) (c : ascii) : Z := rfind_from 0 (-1) c s.

Fixpoint all_chars (p : ascii -> bool) (s : string) : bool :=
  match s with
  | EmptyString => true
  | String c s' => p c && all_chars p s'
  end.

(** [os.path.splitext(p)[1]]: the extension starts at the last dot of the
    last component, unless only dots precede it there. *)
Definition splitext_ext (p : string) : string :=
  let sepIndex := rfind p "/" in
  let dotIndex := rfind p "." in
  if sepIndex <? dotIndex then
    if all_chars (Ascii.eqb ".") (Py.slice p (sepIndex + 1) dotIndex) then EmptyString
    else Py.slice p dotIndex (Py.len p)
  else EmptyString.

Definition binary_exts : list string :=
  [".png"; ".jpg"; ".jpeg"; ".gif"; ".bmp"; ".pdf"; ".zip"; ".rar"; ".7z";
   ".exe"; ".dll"; ".so"].

Definition looks_like_text (path : string) : bool :=
  let ext := Py.lower (splitext_ext path) in
  if existsb (String.eqb ext) binary_exts then false else true.

(** [f.read(n)] until it returns the empty string. *)
Fixpoint takeN (n : N) (s : string) : string :=
  match s with
  | EmptyString => EmptyString
  | String c s' => if (n =? 0)%N then EmptyString else String c (takeN (N.pred n) s')
  end.

Fixpoint dropN (n : N) (s : string) : string :=
  match s with
  | EmptyString => EmptyString
  | String _ s' => if (n =? 0)%N then s else dropN (N.pred n) s'
  end.

Fixpoint read_chunks (fuel : nat) (n : N) (s : string) : list string :=
  match fuel, s with
  | S fuel', String _ _ => takeN n s :: read_chunks fuel' n (dropN n s)
  | _, _ => []
  end.

Definition CHUNK : N := 1024 * 1024 * 8.

(** What the machine around the scan provides: the file tree, and the
    external matcher.  [rg path = None] when no [rg] executable is found or
    it cannot be started; otherwise the lines of its output. *)
Record Env : Type := {
  fs : node;
  rg : string -> option (list string)
}.

Definition scan_file (env : Env) (path : string) : list string :=
  match rg env path with
  | Some lines =>
      filter (fun l => l <> EmptyString) (map Py.strip lines)
  | None =>
      match resolve (fs env) path with
      | Some (File _ (Some text)) =>
          flat_map (finditer EMAIL_RE) (read_chunks (String.length text) CHUNK text)
      | _ => []
      end
  end.

(** ** models.py *)

Module Job.

Record t : Type := mk {
  id : Z;
  name : string;
  status : string;
  processed_bytes : Z;
  total_bytes : Z;
  mbps : Q;
  eta_seconds : option Z;
  emails_found : Z;
  include_domains : string;
  deny_domains : string;
  business_only : bool;
  workers : Z;
  chunk_mb : Z;
  paused : bool;
  cancelled : bool;
  created_ts : Q;
  started_ts : Q;
  finished_ts : option Q
}.

(** Assignment to one attribute of the record. *)
Definition set_status (v : string) (j : t) : t :=
  mk (id j) (name j) v (processed_bytes j) (total_bytes j) (mbps j) (eta_seconds j) (emails_found j) (include_domains j) (deny_domains j) (business_only j) (workers j) (chunk_mb j) (paused j) (cancelled j) (created_ts j) (started_ts j) (finished_ts j).
Definition set_processed_bytes (v : Z) (j : t) : t :=
  mk (id j) (name j) (status j) v (total_bytes j) (mbps j) (eta_seconds j) (emails_found j) (include_domains j) (deny_domains j) (business_only j) (workers j) (chunk_mb j) (paused j) (cancelled j) (created_ts j) (started_ts j) (finished_ts j).
Definition set_mbps (v : Q) (j : t) : t :=
  mk (id j) (name j) (status j) (processed_bytes j) (total_bytes j) v (eta_seconds j) (emails_found j) (include_domains j) (deny_domains j) (business_only j) (workers j) (chunk_mb j) (paused j) (cancelled j) (created_ts j) (started_ts j) (finished_ts j).
Definition set_eta_seconds (v : option Z) (j : t) : t :=
  mk (id j) (name j) (status j) (processed_bytes j) (total_bytes j) (mbps j) v (emails_found j) (include_domains j) (deny_domains j) (business_only j) (workers j) (chunk_mb j) (paused j) (cancelled j) (created_ts j) (started_ts j) (finished_ts j).
Definition set_emails_found (v : Z) (j : t) : t :=
  mk (id j) (name j) (status j) (processed_bytes j) (total_bytes j) (mbps j) (eta_seconds j) v (include_domains j) (deny_domains j) (business_only j) (workers j) (chunk_mb j) (paused j) (cancelled j) (created_ts j) (started_ts j) (finished_ts j).
Definition set_paused (v : bool) (j : t) : t :=
  mk (id j) (name j) (status j) (processed_bytes j) (total_bytes j) (mbps j) (eta_seconds j) (emails_found j) (include_domains j) (deny_domains j) (business_only j) (workers j) (chunk_mb j) v (cancelled j) (created_ts j) (started_ts j) (finished_ts j).
Definition set_cancelled (v : bool) (j : t) : t :=
  mk (id j) (name j) (status j) (processed_bytes j) (total_bytes j) (mbps j) (eta_seconds j) (emails_found j) (include_domains j) (deny_domains j) (business_only j) (workers j) (chunk_mb j) (paused j) v (created_ts j) (started_ts j) (finished_ts j).
Definition set_started_ts (v : Q) (j : t) : t :=
  mk (id j) (name j) (status j) (processed_bytes j) (total_bytes j) (mbps j) (eta_seconds j) (emails_found j) (include_domains j) (deny_domains j) (business_only j) (workers j) (chunk_mb j) (paused j) (cancelled j) (created_ts j) v (finished_ts j).
Definition set_finished_ts (v : option Q) (j : t) : t :=
  mk (id j) (name j) (status j) (processed_bytes j) (total_bytes j) (mbps j) (eta_seconds j) (emails_found j) (include_domains j) (deny_domains j) (business_only j) (workers j) (chunk_mb j) (paused j) (cancelled j) (created_ts j) (started_ts j) v.

End Job.

(** The surrogate key of an [emails] row is left out: the table is keyed by
    its unique [email] column.  [first_seen_ts] and [last_seen_ts] are whole
    seconds, as the flush writes them. *)
Module Email.

Record t : Type := mk {
  first_seen_ts : Z;
  last_seen_ts : Z;
  seen_count : Z
}.

End Email.

(** The two tables. *)
Record DB : Type := {
  jobs : gmap Z Job.t;
  emails : gmap string Email.t
}.

Definition with_jobs (f : gmap Z Job.t -> gmap Z Job.t) (db : DB) : DB :=
  {| jobs := f (jobs db); emails := emails db |}.

Definition with_emails (f : gmap string Email.t -> gmap string Email.t) (db : DB) : DB :=
  {| jobs := jobs db; emails := f (emails db) |}.

(** [db.get(Job, job_id)] *)
Definition db_get (db : DB) (job_id : Z) : option Job.t := jobs db !! job_id.

(** [UPDATE jobs SET ... WHERE id = job_id]: no row, no change. *)
Definition update_job (job_id : Z) (f : Job.t -> Job.t) (db : DB) : DB :=
  with_jobs (alter f job_id) db.

(** The key the store gives a new job row: one more than the largest key
    in use. *)
Definition fresh_id (m : gmap Z Job.t) : Z :=
  1 + map_fold (fun k _ acc => Z.max k acc) 0 m.

(** ** app.py: the job API *)

Inductive response : Type :=
| Created (id : Z) (name status : string) (total_bytes : Z)
| OkTrue
| HTTPException (status_code : Z) (detail : string).

(** The fields of the submission form. *)
Record Form : Type := {
  form_name : string;
  form_server_path : option string;
  form_workers : Z;
  form_include_domains : string;
  form_deny_domains : string;
  form_chunk_mb : Z;
  form_business_only : bool;
  form_limit_n : Z
}.

Definition sum_sizes (files : list (string * Z)) : Z :=
  fold_right (fun f acc => snd f + acc) 0 files.

(** The row that [create_job] builds. *)
Definition new_job (now : Q) (f : Form) (id total_bytes : Z) : Job.t := {|
  Job.id := id;
  Job.name := Py.str_or (Py.strip (form_name f)) "scan";
  Job.status := "queued";
  Job.processed_bytes := 0;
  Job.total_bytes := total_bytes;
  Job.mbps := 0%Q;
  Job.eta_seconds := None;
  Job.emails_found := 0;
  Job.include_domains := form_include_domains f;
  Job.deny_domains := form_deny_domains f;
  Job.business_only := form_business_only f;
  Job.chunk_mb := Py.int_or (form_chunk_mb f) 512;
  Job.workers := Z.max 1 (Z.min (Py.int_or (form_workers f) 8) 64);
  Job.paused := false;
  Job.cancelled := false;
  Job.created_ts := now;
  Job.started_ts := now;
  Job.finished_ts := None
|}.

(** The integer columns of the store hold signed 64-bit values: the driver
    raises [OverflowError] on any other [int] when the row is inserted. *)
Definition int64 (z : Z) : bool := (- 2 ^ 63 <=? z) && (z <? 2 ^ 63).

(** The result is the table state, the response, and the worker thread that
    was started, as its arguments [(j.id, server_path)].  An exception of
    [db.commit()] is not caught: the session is rolled back, no thread is
    started, and the framework answers with status 500. *)
Definition create_job (env : Env) (now : Q) (f : Form) (db : DB)
  : DB * response * option (Z * string) :=
  let server_path := Py.str_or (default EmptyString (form_server_path f)) EmptyString in
  if String.eqb server_path EmptyString then
    (db, HTTPException 400 "Provide server_path (file or folder)", None)
  else if negb (isabs server_path) then
    (db, HTTPException 400 "Path must be absolute", None)
  else if negb (exists_ (fs env) server_path) then
    (db, HTTPException 400 "Path not found", None)
  else
    let files := iter_files (fs env) server_path in
    match files with
    | [] => (db, HTTPException 400 "No readable files found", None)
    | _ :: _ =>
        let j := new_job now f (fresh_id (jobs db)) (sum_sizes files) in
        if int64 (Job.total_bytes j) && int64 (Job.chunk_mb j) then
          (with_jobs (insert (Job.id j) j) db,
           Created (Job.id j) (Job.name j) (Job.status j) (Job.total_bytes j),
           Some (Job.id j, server_path))
        else (db, HTTPException 500 "Internal Server Error", None)
    end.

Definition pause_job (job_id : Z) (db : DB) : DB * response :=
  (update_job job_id (Job.set_paused true) db, OkTrue).

Definition resume_job (job_id : Z) (db : DB) : DB * response :=
  (update_job job_id (fun j => Job.set_status "running" (Job.set_paused false j)) db, OkTrue).

Definition cancel_job (job_id : Z) (db : DB) : DB * response :=
  (update_job job_id (fun j => Job.set_status "cancelled" (Job.set_cancelled true j)) db, OkTrue).

Definition delete_job (job_id : Z) (db : DB) : DB * response :=
  (with_jobs (delete job_id) db, OkTrue).

(** ** app.py: the worker *)

(** A step of the worker either returns with its writes committed, or raises
    with the writes since the last commit still pending in its session. *)
Inductive result (A : Type) : Type :=
| Return (a : A) (db : DB)
| Raise (committed pending : DB).
Arguments Return {A} a db.
Arguments Raise {A} committed pending.

Definition M (A : Type) : Type := DB -> result A.

Definition ret {A} (a : A) : M A := fun db => Return a db.

Definition bind {A B} (m : M A) (k : A -> M B) : M B :=
  fun db => match m db with
            | Return a db' => k a db'
            | Raise c p => Raise c p
            end.

Notation "x <- m ;; k" := (bind m (fun x => k))
  (at level 100, m at next level, right associativity).

(** One row of the UPSERT. *)
Definition upsert (now : Z) (e : string) (m : gmap string Email.t) : gmap string Email.t :=
  match m !! e with
  | Some r => <[e := Email.mk (Email.first_seen_ts r) now (Email.seen_count r + 1)]> m
  | None => <[e := Email.mk now now 1]> m
  end.

Definition upsert_all (now : Z) (es : list string) (m : gmap string Email.t)
  : gmap string Email.t :=
  fold_right (upsert now) m es.

(** The variable [job] holds [None] or the ORM object of a row, which is
    modelled by the key of that row: an attribute assignment followed by a
    commit updates the row.  With [job = None] the assignment raises, after
    the UPSERT was executed and before the commit.  The statements of the
    store themselves are taken to succeed here and in [_update_metrics]; a
    store that raises under a worker is the event [Crash] of the system. *)
Definition _flush_emails (now : Q) (job : option Z) (emails_ : gset string) : M unit :=
  fun db =>
    if decide (emails_ = ∅) then Return tt db
    else
      let db1 := with_emails (upsert_all (Qfloor now) (elements emails_)) db in
      match job with
      | Some id =>
          Return tt (update_job id
                       (Job.set_emails_found (Z.of_nat (size (emails db1)))) db1)
      | None => Raise db db1
      end.

(** [int(x)] of a rational: towards zero. *)
Definition int_of_Q (x : Q) : Z := Z.quot (Qnum x) (Zpos (Qden x)).

Definition MiB : Q := inject_Z (1024 * 1024).

Definition metrics (now t0 : Q) (processed : Z) (j : Job.t) : Job.t :=
  let j := Job.set_processed_bytes processed j in
  let elapsed := Qmax (1 # 1000) (now - t0) in
  let mbps := ((inject_Z processed / MiB) / elapsed)%Q in
  let j := Job.set_mbps mbps j in
  if (0 <? Job.total_bytes j) && negb (Qle_bool mbps 0) then
    let remaining_mb := Qmax 0 (inject_Z (Job.total_bytes j - processed) / MiB) in
    Job.set_eta_seconds (Some (int_of_Q (remaining_mb / mbps))) j
  else j.

Definition _update_metrics (now : Q) (job : option Z) (processed : Z) (t0 : Q) : M unit :=
  fun db =>
    match job with
    | Some id => Return tt (update_job id (metrics now t0 processed) db)
    | None => Raise db db
    end.

Definition batch_size : Z := 2000.

(** The body of [for email in scan_file(path)]. *)
Definition add_email (now : Q) (job : option Z) (batch : gset string) (email : string)
  : M (gset string) :=
  let batch := batch ∪ {[canon_email email]} in
  if batch_size <=? Z.of_nat (size batch) then
    _ <- _flush_emails now job batch ;; ret ∅
  else ret batch.

Fixpoint scan_loop (now : Q) (job : option Z) (batch : gset string) (found : list string)
  : M (gset string) :=
  match found with
  | [] => ret batch
  | email :: found' =>
      b <- add_email now job batch email ;; scan_loop now job b found'
  end.

(** Where the thread stands between two reads of the job record. *)
Inductive pc : Type :=
| Start
| Loop (cur : string * Z) (rest : list (string * Z))
| Sleep (cur : string * Z) (rest : list (string * Z))
| Finish
| Exit.

(** The thread of one job: its arguments, its position and its locals. *)
Record Worker : Type := {
  job_id : Z;
  server_path : string;
  at_ : pc;
  t0 : Q;
  processed_bytes : Z;
  emails_batch : gset string
}.

Definition goto (p : pc) (w : Worker) : Worker :=
  {| job_id := job_id w; server_path := server_path w; at_ := p; t0 := t0 w;
     processed_bytes := processed_bytes w; emails_batch := emails_batch w |}.

Definition locals (t : Q) (processed : Z) (batch : gset string) (w : Worker) : Worker :=
  {| job_id := job_id w; server_path := server_path w; at_ := at_ w; t0 := t;
     processed_bytes := processed; emails_batch := batch |}.

(** [except Exception], then [finally: db.close()]: the record is marked
    failed and committed with whatever was pending, or, when it is gone, the
    pending writes are dropped with the session. *)
Definition on_exception (w : Worker) (committed pending : DB) : Worker * DB :=
  match db_get pending (job_id w) with
  | Some _ => (goto Exit w, update_job (job_id w) (Job.set_status "failed") pending)
  | None => (goto Exit w, committed)
  end.

(** Lines 239-242: the final flush, reached by exhaustion and by [break]. *)
Definition leave_loop (now : Q) (job : option Z) (w : Worker) (db : DB) : Worker * DB :=
  if decide (emails_batch w = ∅) then (goto Finish w, db)
  else
    match _flush_emails now job (emails_batch w) db with
    | Return _ db' => (goto Finish (locals (t0 w) (processed_bytes w) ∅ w), db')
    | Raise c p => on_exception w c p
    end.

(** Lines 223-237 for one file. *)
Definition scan_one (env : Env) (now : Q) (job : option Z) (w : Worker)
    (cur : string * Z) : M (gset string * Z) :=
  let '(path, fsize) := cur in
  if negb (looks_like_text path) then
    let processed := processed_bytes w + fsize in
    _ <- _update_metrics now job processed (t0 w) ;;
    ret (emails_batch w, processed)
  else
    batch <- scan_loop now job (emails_batch w) (scan_file env path) ;;
    let processed := processed_bytes w + fsize in
    _ <- _update_metrics now job processed (t0 w) ;;
    ret (batch, processed).

(** The [break] on a cancelled record.  With a batch, the final flush
    commits and the thread reads the row again at line 244.  With an empty
    batch nothing is committed after the read of line 212: the read of
    line 244 returns the same object, cancelled, and the thread ends without
    another look at the row. *)
Definition stop_cancelled (now : Q) (w : Worker) (db : DB) : Worker * DB :=
  if decide (emails_batch w = ∅) then (goto Exit w, db)
  else leave_loop now (Some (job_id w)) w db.

Definition next_file (now : Q) (job : option Z) (w : Worker)
    (rest : list (string * Z)) (db : DB) : Worker * DB :=
  match rest with
  | [] => leave_loop now job w db
  | f :: rest' => (goto (Loop f rest') w, db)
  end.

Definition process_file (env : Env) (now : Q) (job : option Z) (w : Worker)
    (cur : string * Z) (rest : list (string * Z)) (db : DB) : Worker * DB :=
  match scan_one env now job w cur db with
  | Return (batch, processed) db' =>
      next_file now job (locals (t0 w) processed batch w) rest db'
  | Raise c p => on_exception w c p
  end.

(** The thread runs from one read of the job record to the next.

    The session expires its objects at each commit, and [db.get] reloads an
    expired object only.  The read at the head of the loop (line 212)
    follows a commit and sees the row as it is; so does the read after the
    loop (line 244), except after the [break] of [stop_cancelled].  The poll
    of the pause loop (line 217) follows no commit: it returns the object as
    it was read at line 212, not cancelled and paused, whatever has become
    of the row.  A thread that has gone to sleep stays asleep and writes
    nothing. *)
Definition tick (env : Env) (now : Q) (w : Worker) (db : DB) : Worker * DB :=
  match at_ w with
  | Start =>
      match db_get db (job_id w) with
      | None => (goto Exit w, db)
      | Some j =>
          let db := update_job (job_id w)
                      (fun j => Job.set_started_ts now
                                  (Job.set_processed_bytes 0
                                     (Job.set_status "running" j))) db in
          next_file now (Some (job_id w)) (locals now 0 ∅ w)
            (iter_files (fs env) (server_path w)) db
      end
  | Loop cur rest =>
      match db_get db (job_id w) with
      | None => leave_loop now None w db
      | Some j =>
          if Job.cancelled j then stop_cancelled now w db
          else if Job.paused j then (goto (Sleep cur rest) w, db)
          else process_file env now (Some (job_id w)) w cur rest db
      end
  | Sleep cur rest => (w, db)
  | Finish =>
      match db_get db (job_id w) with
      | Some j =>
          if negb (Job.cancelled j) then
            (goto Exit w,
             update_job (job_id w)
               (fun j => metrics now (t0 w) (processed_bytes w)
                           (Job.set_finished_ts (Some now)
                              (Job.set_status "done" j))) db)
          else (goto Exit w, db)
      | None => (goto Exit w, db)
      end
  | Exit => (w, db)
  end.

(** The positions whose move opens with a call to the store.  The poll of
    a sleeping thread does not reach the store, and a thread that has ended
    makes no call. *)
Definition calls_store (p : pc) : bool :=
  match p with
  | Start | Loop _ _ | Finish => true
  | Sleep _ _ | Exit => false
  end.

(** A move at whose opening read the store raises instead: the handler
    of [except Exception] runs with nothing pending. *)
Definition crash (w : Worker) (db : DB) : Worker * DB :=
  if calls_store (at_ w) then on_exception w db db else (w, db).

(** ** The system: the tables and the worker threads

    Threads are numbered in the order in which they were started.  The
    events are the requests of the job API and the moves of one thread from
    one read of its job record to the next, with or without a failure of
    the store; requests and moves of different threads interleave in any
    order. *)

Record Sys : Type := {
  db : DB;
  threads : list Worker
}.

Inductive event : Type :=
| Submit (now : Q) (form : Form)
| Pause (job_id : Z)
| Resume (job_id : Z)
| Cancel (job_id : Z)
| Delete (job_id : Z)
| Tick (thread : nat) (now : Q)
| Crash (thread : nat).

Definition spawn (job_id : Z) (server_path : string) : Worker :=
  {| job_id := job_id; server_path := server_path; at_ := Start; t0 := 0%Q;
     processed_bytes := 0; emails_batch := ∅ |}.

Definition command (c : DB * response) (s : Sys) : Sys * option response :=
  ({| db := fst c; threads := threads s |}, Some (snd c)).

Definition step (env : Env) (ev : event) (s : Sys) : Sys * option response :=
  match ev with
  | Submit now form =>
      match create_job env now form (db s) with
      | (db', r, Some (id, path)) =>
          ({| db := db'; threads := threads s ++ [spawn id path] |}, Some r)
      | (db', r, None) => ({| db := db'; threads := threads s |}, Some r)
      end
  | Pause id => command (pause_job id (db s)) s
  | Resume id => command (resume_job id (db s)) s
  | Cancel id => command (cancel_job id (db s)) s
  | Delete id => command (delete_job id (db s)) s
  | Tick n now =>
      match threads s !! n with
      | Some w =>
          let '(w', db') := tick env now w (db s) in
          ({| db := db'; threads := <[n := w']> (threads s) |}, None)
      | None => (s, None)
      end
  | Crash n =>
      match threads s !! n with
      | Some w =>
          let '(w', db') := crash w (db s) in
          ({| db := db'; threads := <[n := w']> (threads s) |}, None)
      | None => (s, None)
      end
  end.

Definition run (env : Env) (evs : list event) (s : Sys) : Sys :=
  fold_left (fun s ev => fst (step env ev s)) evs s.

Definition empty_db : DB := {| jobs := ∅; emails := ∅ |}.
Definition boot : Sys := {| db := empty_db; threads := [] |}.

(** ** Vocabulary of the specification *)

(** [seen_count] of a token, 0 when it has no row. *)
Definition seen (db : DB) (t : string) : Z :=
  from_option Email.seen_count 0 (emails db !! t).

Definition terminal (status : string) : bool :=
  String.eqb status "done" || String.eqb status "cancelled" || String.eqb status "failed".

(** [e] is enclosed in angle brackets. *)
Definition enclosed (e : string) : bool := Py.startswith e "<" && Py.endswith e ">".


(** What one file adds to the batch, and what a list of files does. *)
Definition tokens (env : Env) (path : string) : gset string :=
  if looks_like_text path then list_to_set (canon_email <$> scan_file env path) else ∅.

Definition all_tokens (env : Env) (files : list (string * Z)) : gset string :=
  ⋃ ((fun f => tokens env (fst f)) <$> files).

(** How often the scan of [files] observes the canonical token [t]. *)
Definition observations (env : Env) (files : list (string * Z)) (t : string) : nat :=
  length (filter (fun e => canon_email e = t)
            (flat_map (fun f => if looks_like_text (fst f) then scan_file env (fst f) else [])
               files)).

(** Batches flushed one after the other, each at its time for its job. *)
Fixpoint flush_all (batches : list (Q * Z * gset string)) : M unit :=
  match batches with
  | [] => ret tt
  | (now, id, batch) :: batches' =>
      _ <- _flush_emails now (Some id) batch ;; flush_all batches'
  end.

Definition with_workers (w : Z) (f : Form) : Form :=
  {| form_name := form_name f; form_server_path := form_server_path f;
     form_workers := w; form_include_domains := form_include_domains f;
     form_deny_domains := form_deny_domains f; form_chunk_mb := form_chunk_mb f;
     form_business_only := form_business_only f; form_limit_n := form_limit_n f |}.

(** The moves of one worker, one clock reading each. *)
Fixpoint ticks (env : Env) (clocks : list Q) (w : Worker) (db : DB) : Worker * DB :=
  match clocks with
  | [] => (w, db)
  | now :: clocks' => let '(w', db') := tick env now w db in ticks env clocks' w' db'
  end.

(** The events that may rewrite the status of job [id] in state [s]: a
    resume, a cancel or a delete of that job, and three moves of a worker
    of that job: its start, its completion, and a move in which the store
    fails. *)
Definition rewrites_status (s : Sys) (id : Z) (ev : event) : Prop :=
  match ev with
  | Resume k | Cancel k | Delete k => k = id
  | Tick n _ =>
      exists w, threads s !! n = Some w /\ job_id w = id /\
                (at_ w = Start \/ at_ w = Finish)
  | Crash n =>
      exists w, threads s !! n = Some w /\ job_id w = id /\
                calls_store (at_ w) = true
  | Submit _ _ | Pause _ => False
  end.

(** The status of the row of job [id], if there is one. *)
Definition status_of (s : Sys) (id : Z) : option string :=
  Job.status <$> jobs (db s) !! id.

(** The external matcher prints no line that is a bare pair of angle
    brackets. *)
Definition rg_no_bare_brackets (env : Env) : Prop :=
  forall path lines line,
    rg env path = Some lines -> In line lines -> Py.strip line <> "<>".

(** Nonempty and without an upper-case letter. *)
Definition lowercase_token (t : string) : Prop :=
  t <> EmptyString /\ all_chars (fun c => negb (Py.isupper c)) t = true.

(** ** Scenarios *)

Module Scenario.

Definition submit (path : string) : Form :=
  {| form_name := "scan"; form_server_path := Some path; form_workers := 8;
     form_include_domains := ""; form_deny_domains := ""; form_chunk_mb := 512;
     form_business_only := false; form_limit_n := 0 |}.

(** The same submission with a chunk size of [2 ^ 63]. *)
Definition oversized (path : string) : Form :=
  {| form_name := "scan"; form_server_path := Some path; form_workers := 8;
     form_include_domains := ""; form_deny_domains := ""; form_chunk_mb := 2 ^ 63;
     form_business_only := false; form_limit_n := 0 |}.

Definition nl : string := String (ascii_of_N 10) EmptyString.

(** One directory with one file. *)
Definition text_A : string := "Contact: John.Doe@Example.COM and <jane@sub.example.org>".

Definition tree_A : node :=
  Dir [("data", Dir [("contacts.txt", File (Some 56) (Some text_A))])].

(** Without the external matcher, and with it printing one match a line. *)
Definition env_A (with_rg : bool) : Env :=
  {| fs := tree_A;
     rg := fun path =>
             if with_rg then
               Some (if String.eqb path "/data/contacts.txt"
                     then ["John.Doe@Example.COM" +:+ nl; "jane@sub.example.org" +:+ nl]
                     else [])
             else None |}.

(** One file that holds the same address twice. *)
Definition env_twice : Env :=
  {| fs := Dir [("data", Dir [("a.txt", File (Some 22) (Some "a@b.co wrote to A@B.co"))])];
     rg := fun _ => None |}.

(** A picture and a text file; the picture holds an address as well. *)
Definition env_C : Env :=
  {| fs := Dir [("data", Dir [("logo.png", File (Some 2048) (Some "raw x@y.zz"));
                              ("note.txt", File (Some 17) (Some "mail bob@site.org"))])];
     rg := fun _ => None |}.

(** Two text files. *)
Definition env_two : Env :=
  {| fs := Dir [("data", Dir [("a.txt", File (Some 9) (Some "ann@a.org"));
                              ("b.txt", File (Some 9) (Some "bob@b.org"))])];
     rg := fun _ => None |}.

(** A cancelled job whose worker is about to look at its second file. *)
Definition db_cancelled : DB :=
  {| jobs := {[ 1 := Job.set_cancelled true
                       (Job.set_status "cancelled" (new_job 0 (submit "/data") 1 18)) ]};
     emails := ∅ |}.

Definition worker_mid : Worker :=
  {| job_id := 1; server_path := "/data"; at_ := Loop ("/data/b.txt", 9) [];
     t0 := 1; processed_bytes := 9; emails_batch := {[ "ann@a.org" ]} |}.

End Scenario.

(** ** Predicates of the proofs *)

(** No leading white space. *)
Definition tight_l (s : string) : bool :=
  match s with String c _ => negb (Py.isspace c) | EmptyString => true end.

Definition plain (c : ascii) : bool := negb (Py.isspace c).

Fixpoint concat_str (l : list string) : string :=
  match l with
  | [] => EmptyString
  | s :: l' => s +:+ concat_str l'
  end.

(** The row of a token after one more observation at [now]. *)
Definition bump (now : Z) (o : option Email.t) : Email.t :=
  match o with
  | Some r => Email.mk (Email.first_seen_ts r) now (Email.seen_count r + 1)
  | None => Email.mk now now 1
  end.

(** [f] leaves the identity, the status and the control flags of a row. *)
Definition keeps (f : Job.t -> Job.t) : Prop :=
  forall j, Job.id (f j) = Job.id j /\ Job.status (f j) = Job.status j /\
            Job.paused (f j) = Job.paused j /\ Job.cancelled (f j) = Job.cancelled j /\
            Job.total_bytes (f j) = Job.total_bytes j.

(** The job table after a move of the worker of [id]: its row, if any, was
    rewritten by some [f] with [keeps f]. *)
Definition rewrote (id : Z) (db db' : DB) : Prop :=
  exists f, keeps f /\ jobs db' = alter f id (jobs db).

(** The record of [id] exists and is neither paused nor cancelled. *)
Definition undisturbed (db : DB) (id : Z) : Prop :=
  exists j, jobs db !! id = Some j /\ Job.paused j = false /\ Job.cancelled j = false.

(** What a move from position [p] may do to the row of its job: the flags
    are left alone; the status is set to running at the start, and to done
    at the end unless the job is cancelled. *)
Definition writes (p : pc) (j j' : Job.t) : Prop :=
  Job.cancelled j' = Job.cancelled j /\ Job.paused j' = Job.paused j /\
  (Job.status j' = Job.status j \/
   (p = Start /\ Job.status j' = "running") \/
   (p = Finish /\ Job.cancelled j = false /\ Job.status j' = "done")).

Definition wrote (p : pc) (id : Z) (db db' : DB) : Prop :=
  exists f, (forall j, writes p j (f j)) /\ jobs db' = alter f id (jobs db).

(** The tokens that a move from position [p] reads from its file. *)
Definition read_at (env : Env) (p : pc) : gset string :=
  match p with
  | Loop cur _ => tokens env (fst cur)
  | _ => ∅
  end.

(** Every token of the registry and of the batches has the property [P]. *)
Definition tokens_ok (P : string -> Prop) (s : Sys) : Prop :=
  (forall t, t ∈ dom (emails (db s)) -> P t) /\
  (forall n w t, threads s !! n = Some w -> t ∈ emails_batch w -> P t).

(** A relation on databases holds between the state before a step of the
    worker and what the step returns or, if it raises, what it leaves
    committed and pending. *)
Definition within (R : DB -> DB -> Prop) (db : DB) {A} (r : result A) : Prop :=
  match r with
  | Return _ db' => R db db'
  | Raise c p => R db c /\ R db p
  end.

(** The registry never loses a row, never changes a [first_seen_ts], and
    never lowers a [seen_count]. *)
Definition grows (m m' : gmap string Email.t) : Prop :=
  forall t r, m !! t = Some r ->
    exists r', m' !! t = Some r' /\
               Email.first_seen_ts r' = Email.first_seen_ts r /\
               Email.seen_count r <= Email.seen_count r'.

(** Every row counts at least one observation. *)
Definition counted (m : gmap string Email.t) : Prop :=
  forall t r, m !! t = Some r -> 1 <= Email.seen_count r.

Definition small (batch : gset string) : Prop := Z.of_nat (size batch) < batch_size.

(** How often a character occurs in a string. *)
Fixpoint occurrences (c : ascii) (s : string) : nat :=
  match s with
  | EmptyString => O
  | String d s' => ((if Ascii.eqb d c then 1 else 0) + occurrences c s')%nat
  end.

(** [gaps] and [matches] in turn: a gap, a match, a gap, ..., a gap. *)
Fixpoint weave (gaps matches : list string) : string :=
  match gaps, matches with
  | g :: gaps', m :: matches' => g +:+ m +:+ weave gaps' matches'
  | g :: _, [] => g
  | [], _ => EmptyString
  end.

(** The files a worker still has before it. *)
Definition ahead (p : pc) : option (list (string * Z)) :=
  match p with
  | Loop cur rest | Sleep cur rest => Some (cur :: rest)
  | _ => None
  end.

(** While a worker is in its loop, its byte counter and the sizes of the
    files still before it add up to the total of the enumeration. *)
Definition accounted (env : Env) (w : Worker) : Prop :=
  forall files, ahead (at_ w) = Some files ->
    processed_bytes w + sum_sizes files
    = sum_sizes (iter_files (fs env) (server_path w)).

(** A name of a directory entry: not empty, without a separator. *)
Definition name_ok (name : string) : Prop :=
  name <> EmptyString /\ occurrences "/" name = 0%nat.

(** A tree as a file system has it: in every directory the names are
    proper and no name occurs twice. *)
Fixpoint well_formed (n : node) : Prop :=
  match n with
  | File _ _ => True
  | Dir es =>
      NoDup (fst <$> es) /\
      (fix all (es : list (string * node)) : Prop :=
         match es with
         | [] => True
         | e :: es' => name_ok (fst e) /\ well_formed (snd e) /\ all es'
         end) es
  end.

(** Induction on a tree, with the entries of a directory. *)
Fixpoint node_induction (P : node -> Prop)
    (Hfile : forall sz c, P (File sz c))
    (Hdir : forall es, (forall e, In e es -> P (snd e)) -> P (Dir es))
    (n : node) : P n :=
  match n with
  | File sz c => Hfile sz c
  | Dir es =>
      Hdir es
        ((fix go (es : list (string * node)) : forall e, In e es -> P (snd e) :=
            match es with
            | [] => fun e (H : In e []) => match H with end
            | e0 :: es' =>
                fun e (H : In e (e0 :: es')) =>
                  match H with
                  | or_introl Heq =>
                      eq_ind e0 (fun x => P (snd x)) (node_induction P Hfile Hdir (snd e0)) e Heq
                  | or_intror Hin => go es' e Hin
                  end
            end) es)
  end.

(** * Properties *)

(** ** Characters and strings *)

Ltac each_char c := destruct c as [[] [] [] [] [] [] [] []]; vm_compute; try reflexivity; try congruence.

Lemma isspace_lower_char c : Py.isspace (Py.lower_char c) = Py.isspace c.
Proof. each_char c. Qed.

Lemma lower_char_idem c : Py.lower_char (Py.lower_char c) = Py.lower_char c.
Proof. each_char c. Qed.

Lemma isupper_lower_char c : Py.isupper (Py.lower_char c) = false.
Proof. each_char c. Qed.

Lemma local_cls_plain c :
  local_cls c = true ->
  Py.isspace c = false /\ Ascii.eqb (Py.lower_char c) "<" = false.
Proof. each_char c; intros; split; congruence. Qed.

Lemma domain_cls_plain c : domain_cls c = true -> Py.isspace c = false.
Proof. each_char c. Qed.

Lemma tld_cls_plain c : tld_cls c = true -> Py.isspace c = false.
Proof. each_char c. Qed.

Lemma lower_idem s : Py.lower (Py.lower s) = Py.lower s.
Proof. induction s as [|c s IH]; simpl; [done|]. by rewrite lower_char_idem, IH. Qed.

Lemma lower_no_upper s : all_chars (fun c => negb (Py.isupper c)) (Py.lower s) = true.
Proof. induction s as [|c s IH]; simpl; [done|]. by rewrite isupper_lower_char, IH. Qed.

Lemma lower_length s : String.length (Py.lower s) = String.length s.
Proof. induction s; simpl; congruence. Qed.

Lemma lstrip_lower s : Py.lstrip (Py.lower s) = Py.lower (Py.lstrip s).
Proof.
  induction s as [|c s IH]; simpl; [done|].
  rewrite isspace_lower_char. by destruct (Py.isspace c).
Qed.

Lemma rstrip_lower s : Py.rstrip (Py.lower s) = Py.lower (Py.rstrip s).
Proof.
  induction s as [|c s IH]; simpl; [done|].
  rewrite IH, isspace_lower_char.
  destruct (Py.rstrip s); simpl; [by destruct (Py.isspace c)|done].
Qed.

Lemma strip_lower s : Py.strip (Py.lower s) = Py.lower (Py.strip s).
Proof. unfold Py.strip. by rewrite lstrip_lower, rstrip_lower. Qed.

Lemma lstrip_tight s : tight_l (Py.lstrip s) = true.
Proof.
  induction s as [|c s IH]; simpl; [done|].
  destruct (Py.isspace c) eqn:E; [done|]. simpl. by rewrite E.
Qed.

Lemma lstrip_id s : tight_l s = true -> Py.lstrip s = s.
Proof. destruct s as [|c s]; simpl; [done|]. by destruct (Py.isspace c). Qed.

Lemma rstrip_tight s : tight_l s = true -> tight_l (Py.rstrip s) = true.
Proof.
  destruct s as [|c s]; simpl; [done|]. intros H.
  destruct (Py.rstrip s); simpl; [|exact H].
  destruct (Py.isspace c) eqn:E; [done|]. simpl. by rewrite E.
Qed.

Lemma rstrip_idem s : Py.rstrip (Py.rstrip s) = Py.rstrip s.
Proof.
  induction s as [|c s IH]; simpl; [done|].
  destruct (Py.rstrip s) as [|d r] eqn:E.
  - destruct (Py.isspace c) eqn:Ec; simpl; [done|]. by rewrite Ec.
  - change (Py.rstrip (String c (String d r))) with
      (match Py.rstrip (String d r) with
       | EmptyString => if Py.isspace c then EmptyString else String c EmptyString
       | r0 => String c r0
       end).
    by rewrite IH.
Qed.

Lemma strip_idem s : Py.strip (Py.strip s) = Py.strip s.
Proof.
  unfold Py.strip.
  rewrite (lstrip_id (Py.rstrip (Py.lstrip s))).
  - apply rstrip_idem.
  - apply rstrip_tight, lstrip_tight.
Qed.

Lemma str_or_empty e : Py.str_or e "" = e.
Proof. by destruct e. Qed.

Lemma all_chars_app p a b :
  all_chars p (a +:+ b) = all_chars p a && all_chars p b.
Proof. induction a as [|c a IH]; simpl; [done|]. rewrite IH. by destruct (p c). Qed.

Lemma all_chars_impl (p q : ascii -> bool) s :
  (forall c, p c = true -> q c = true) -> all_chars p s = true -> all_chars q s = true.
Proof.
  intros Hpq. induction s as [|c s IH]; simpl; [done|].
  intros [Hc Hs]%andb_true_iff. rewrite (Hpq _ Hc). simpl. auto.
Qed.

Lemma span_full cls s : span cls s = String.length s -> all_chars cls s = true.
Proof.
  induction s as [|c s IH]; simpl; [done|].
  destruct (cls c); [|done]. intros [=]. simpl. auto.
Qed.

Lemma strip_plain s : all_chars plain s = true -> Py.strip s = s.
Proof.
  intros H. unfold Py.strip.
  assert (Hl : Py.lstrip s = s).
  { destruct s as [|c s]; simpl in *; [done|].
    apply andb_true_iff in H as [Hc _]. unfold plain in Hc.
    by destruct (Py.isspace c). }
  rewrite Hl. clear Hl.
  induction s as [|c s IH]; simpl in *; [done|].
  apply andb_true_iff in H as [Hc Hs]. rewrite (IH Hs).
  unfold plain in Hc. destruct s; [by destruct (Py.isspace c)|done].
Qed.

(** The canonical form when nothing is enclosed. *)
Lemma canon_email_open e :
  enclosed (Py.lower (Py.strip e)) = false -> canon_email e = Py.lower (Py.strip e).
Proof. unfold canon_email, enclosed. rewrite str_or_empty. by intros ->. Qed.

(** ** The matcher yields strings of the pattern *)

Lemma take_length_le n s : (n <= String.length s)%nat -> String.length (Py.take n s) = n.
Proof.
  revert s. induction n as [|n IH]; intros [|c s]; simpl; try lia.
  intros H. rewrite IH; lia.
Qed.

Lemma take_add j l s : Py.take (j + l) s = Py.take j s +:+ Py.take l (Py.drop j s).
Proof.
  revert s. induction j as [|j IH]; intros s; simpl.
  - by destruct l, s.
  - destruct s as [|c s]; simpl; [by destruct l|]. by rewrite IH.
Qed.

Lemma span_le_length cls s : (span cls s <= String.length s)%nat.
Proof. induction s as [|c s IH]; simpl; [lia|]. destruct (cls c); lia. Qed.

Lemma span_take cls j s :
  (j <= span cls s)%nat -> span cls (Py.take j s) = String.length (Py.take j s).
Proof.
  revert s. induction j as [|j IH]; intros [|c s]; simpl; try done.
  destruct (cls c) eqn:E; [|lia]. intros H. simpl. rewrite ?E, IH; [done|lia].
Qed.

Lemma backtrack_sound k s lo n t :
  backtrack k s lo n = Some t ->
  exists j l, (lo <= j <= n)%nat /\ k (Py.drop j s) = Some l /\ t = (j + l)%nat.
Proof.
  induction n as [|n IH]; cbn [backtrack].
  - destruct (0 <? lo)%nat eqn:E; [done|]. apply Nat.ltb_ge in E.
    destruct (k (Py.drop 0 s)) as [l|] eqn:Ek; [|done].
    intros [= <-]. exists 0%nat, l. repeat split; try lia; done.
  - destruct (S n <? lo)%nat eqn:E; [done|]. apply Nat.ltb_ge in E.
    destruct (k (Py.drop (S n) s)) as [l|] eqn:Ek.
    + intros [= <-]. exists (S n), l. repeat split; try lia; done.
    + intros H. destruct (IH H) as (j & l & Hj & Hk & ->).
      exists j, l. repeat split; try lia; done.
Qed.

Lemma match_here_sound items : forall s n,
  match_here items s = Some n -> re_lang items (Py.take n s).
Proof.
  induction items as [|[c|cls lo] r IH]; intros s n; simpl.
  - intros [= <-]. by destruct s.
  - destruct s as [|c' s]; [done|].
    destruct (Ascii.eqb_spec c c') as [<-|]; [|done].
    destruct (match_here r s) as [m|] eqn:E; [|done].
    intros [= <-]. simpl. eauto.
  - intros (j & l & Hj & Hk & ->)%backtrack_sound.
    exists (Py.take j s), (Py.take l (Py.drop j s)).
    pose proof (span_le_length cls s).
    rewrite take_length_le by lia.
    split; [apply take_add|]. split; [lia|].
    split; [|by apply IH].
    rewrite span_take, take_length_le; [done|lia..].
Qed.

Lemma finditer_from_sound re fuel : forall s x,
  In x (finditer_from fuel re s) -> re_lang re x.
Proof.
  induction fuel as [fuel IH] using lt_wf_ind. intros s x.
  destruct fuel as [|fuel]; simpl; [done|].
  destruct s as [|c s]; [done|].
  destruct (match_here re (String c s)) as [[|l]|] eqn:E.
  - apply IH. lia.
  - intros [<-|H].
    + by apply match_here_sound in E.
    + revert H. apply IH. lia.
  - apply IH. lia.
Qed.

Lemma finditer_sound re s x : In x (finditer re s) -> re_lang re x.
Proof. apply finditer_from_sound. Qed.

Lemma email_lang_shape s :
  re_lang EMAIL_RE s ->
  all_chars plain s = true /\
  exists c s', s = String c s' /\ local_cls c = true.
Proof.
  simpl. intros (a & b & -> & Ha & Sa & s1 & -> & d & e & -> & Hd & Sd
                 & s2 & -> & t & z & -> & Ht & St & ->).
  apply span_full in Sa, Sd, St. split.
  - rewrite all_chars_app. simpl. rewrite all_chars_app. simpl.
    rewrite all_chars_app. simpl.
    rewrite (all_chars_impl local_cls plain a), (all_chars_impl domain_cls plain d),
      (all_chars_impl tld_cls plain t); try done; intros c Hc; unfold plain.
    + by rewrite (tld_cls_plain c Hc).
    + by rewrite (domain_cls_plain c Hc).
    + by rewrite (proj1 (local_cls_plain c Hc)).
  - destruct a as [|c a]; simpl in *; [lia|].
    apply andb_true_iff in Sa as [Hc _]. eauto.
Qed.

Lemma canon_email_match s :
  re_lang EMAIL_RE s ->
  Py.strip s = s /\ enclosed (Py.lower s) = false /\ canon_email s = Py.lower s /\
  canon_email s <> EmptyString.
Proof.
  intros [Hp (c & s' & -> & Hc)]%email_lang_shape.
  pose proof (strip_plain _ Hp) as Hs.
  assert (He : enclosed (Py.lower (String c s')) = false).
  { unfold enclosed. cbn [Py.lower Py.startswith].
    destruct (local_cls_plain c Hc) as [_ Hlt]. by rewrite Hlt. }
  assert (Hcanon : canon_email (String c s') = Py.lower (String c s')).
  { rewrite canon_email_open; rewrite Hs; done. }
  repeat split; try done. by rewrite Hcanon.
Qed.

(** *** The fuel of the matcher and of the reader is enough *)

Lemma drop_length n s : String.length (Py.drop n s) = (String.length s - n)%nat.
Proof.
  revert s. induction n as [|n IH]; intros [|c s]; simpl; try done; lia.
Qed.

Lemma finditer_from_empty re fuel : finditer_from fuel re EmptyString = [].
Proof. by destruct fuel. Qed.

(** More fuel than the length of the text changes nothing. *)
Lemma finditer_from_enough re fuel : forall s,
  (String.length s <= fuel)%nat ->
  finditer_from fuel re s = finditer re s.
Proof.
  unfold finditer. induction fuel as [fuel IH] using lt_wf_ind. intros [|c s] Hlen.
  - by rewrite !finditer_from_empty.
  - destruct fuel as [|fuel]; simpl in Hlen; [lia|]. cbn [finditer_from String.length].
    destruct (match_here re (String c s)) as [[|l]|].
    + apply IH; lia.
    + f_equal. cbn [Py.drop].
      pose proof (drop_length l s) as Hd.
      rewrite (IH (fuel - l)%nat) by lia.
      destruct (decide (String.length s - l = String.length (Py.drop l s))%nat) as [->|]; [done|lia].
    + apply IH; lia.
Qed.

Lemma takeN_dropN n s : takeN n s +:+ dropN n s = s.
Proof.
  revert n. induction s as [|c s IH]; intros n; simpl; [done|].
  destruct (n =? 0)%N; [done|].
  change (String c (takeN (N.pred n) s +:+ dropN (N.pred n) s) = String c s).
  f_equal. apply IH.
Qed.

Lemma dropN_shorter n c s :
  (0 < n)%N -> (String.length (dropN n (String c s)) <= String.length s)%nat.
Proof.
  intros Hn. simpl. destruct (N.eqb_spec n 0); [lia|]. clear Hn n0.
  generalize (N.pred n). clear n. induction s as [|d s IH]; intros n; simpl; [lia|].
  destruct (n =? 0)%N; simpl; [lia|]. specialize (IH (N.pred n)). lia.
Qed.

(** The chunks that are read make up the text. *)
Lemma read_chunks_all n : (0 < n)%N -> forall fuel s,
  (String.length s <= fuel)%nat -> concat_str (read_chunks fuel n s) = s.
Proof.
  intros Hn. induction fuel as [|fuel IH]; intros [|c s] Hlen; simpl in Hlen;
    try done; [lia|].
  cbn [read_chunks concat_str]. rewrite IH; [apply takeN_dropN|].
  pose proof (dropN_shorter n c s Hn). lia.
Qed.

(** ** The registry *)

Lemma upsert_bump now e m : upsert now e m = <[e := bump now (m !! e)]> m.
Proof. unfold upsert. by destruct (m !! e). Qed.

Lemma lookup_upsert_all now es (m : gmap string Email.t) t :
  NoDup es ->
  upsert_all now es m !! t = if decide (t ∈ es) then Some (bump now (m !! t)) else m !! t.
Proof.
  unfold upsert_all. induction 1 as [|e es Hn Hd IH]; cbn [fold_right].
  - by rewrite decide_False by set_solver.
  - rewrite upsert_bump. destruct (decide (e = t)) as [->|Hne].
    + rewrite lookup_insert_eq, IH, decide_False by done.
      by rewrite decide_True by set_solver.
    + rewrite lookup_insert_ne, IH by done.
      destruct (decide (t ∈ es)).
      * by rewrite decide_True by set_solver.
      * by rewrite decide_False by set_solver.
Qed.

Lemma dom_upsert_all now es (m : gmap string Email.t) :
  dom (upsert_all now es m) = list_to_set es ∪ dom m.
Proof.
  unfold upsert_all. induction es as [|e es IH]; cbn [fold_right]; [set_solver|].
  rewrite upsert_bump, dom_insert_L, IH. set_solver.
Qed.

Lemma lookup_flushed now (batch : gset string) (m : gmap string Email.t) t :
  upsert_all now (elements batch) m !! t
  = if decide (t ∈ batch) then Some (bump now (m !! t)) else m !! t.
Proof.
  rewrite lookup_upsert_all by apply NoDup_elements.
  destruct (decide (t ∈ batch)) as [H|H].
  - by rewrite decide_True by by apply elem_of_elements.
  - by rewrite decide_False by by rewrite elem_of_elements.
Qed.

Lemma dom_flushed now (batch : gset string) (m : gmap string Email.t) :
  dom (upsert_all now (elements batch) m) = batch ∪ dom m.
Proof. rewrite dom_upsert_all. by rewrite list_to_set_elements_L. Qed.

(** ** What the worker writes to a job row *)

Lemma keeps_id : keeps (fun j => j).
Proof. done. Qed.

Lemma keeps_compose f g : keeps f -> keeps g -> keeps (f ∘ g).
Proof.
  intros Hf Hg j. simpl.
  destruct (Hf (g j)) as (-> & -> & -> & -> & ->). apply Hg.
Qed.

Lemma keeps_emails_found n : keeps (Job.set_emails_found n).
Proof. done. Qed.

Lemma metrics_fields now t0 p j :
  Job.processed_bytes (metrics now t0 p j) = p /\
  Job.id (metrics now t0 p j) = Job.id j /\
  Job.status (metrics now t0 p j) = Job.status j /\
  Job.paused (metrics now t0 p j) = Job.paused j /\
  Job.cancelled (metrics now t0 p j) = Job.cancelled j /\
  Job.total_bytes (metrics now t0 p j) = Job.total_bytes j.
Proof. unfold metrics. cbv zeta. destruct (_ && _); repeat split; reflexivity. Qed.

Lemma keeps_metrics now t0 p : keeps (metrics now t0 p).
Proof. intros j. apply metrics_fields. Qed.

Lemma alter_noop (f : Job.t -> Job.t) id (m : gmap Z Job.t) :
  (forall j, f j = j) -> alter f id m = m.
Proof.
  intros Hf. apply map_eq. intros k. rewrite lookup_alter.
  case_decide; [subst|done]. destruct (m !! k); simpl; by rewrite ?Hf.
Qed.

Lemma alter_absent (f : Job.t -> Job.t) id (m : gmap Z Job.t) :
  m !! id = None -> alter f id m = m.
Proof.
  intros H. apply map_eq. intros k. rewrite lookup_alter.
  case_decide; [subst|done]. by rewrite H.
Qed.

Lemma alter_twice (f g : Job.t -> Job.t) id (m : gmap Z Job.t) :
  alter f id (alter g id m) = alter (f ∘ g) id m.
Proof.
  apply map_eq. intros k. destruct (decide (id = k)) as [->|].
  - rewrite !lookup_alter_eq. by destruct (m !! k).
  - by rewrite !lookup_alter_ne.
Qed.

Lemma rewrote_refl id db : rewrote id db db.
Proof. exists (fun j => j). split; [done|]. by rewrite alter_noop. Qed.

Lemma rewrote_trans id a b c : rewrote id a b -> rewrote id b c -> rewrote id a c.
Proof.
  intros (f & Hf & Ef) (g & Hg & Eg). exists (g ∘ f).
  split; [by apply keeps_compose|]. by rewrite Eg, Ef, alter_twice.
Qed.

Lemma rewrote_update id f db : keeps f -> rewrote id db (update_job id f db).
Proof. intros Hf. by exists f. Qed.

Lemma rewrote_lookup id db db' j :
  rewrote id db db' -> jobs db !! id = Some j ->
  exists j', jobs db' !! id = Some j' /\ Job.status j' = Job.status j /\
             Job.paused j' = Job.paused j /\ Job.cancelled j' = Job.cancelled j.
Proof.
  intros (f & Hf & ->) Hj. exists (f j).
  rewrite lookup_alter, decide_True, Hj by done. split; [done|].
  destruct (Hf j) as (_ & -> & -> & -> & _). done.
Qed.

Lemma rewrote_other id db db' k :
  rewrote id db db' -> k <> id -> jobs db' !! k = jobs db !! k.
Proof. intros (f & _ & ->) Hk. by rewrite lookup_alter_ne. Qed.

Lemma rewrote_absent id db db' :
  rewrote id db db' -> jobs db !! id = None -> jobs db' = jobs db.
Proof. intros (f & _ & ->) H. by apply alter_absent. Qed.

(** ** The steps of the worker while its record exists *)

Lemma bind_Return {A B} (m : M A) (k : A -> M B) db a db' :
  m db = Return a db' -> bind m k db = k a db'.
Proof. unfold bind. by intros ->. Qed.

Lemma flush_some now id batch db :
  exists db', _flush_emails now (Some id) batch db = Return tt db' /\
              emails db' = upsert_all (Qfloor now) (elements batch) (emails db) /\
              rewrote id db db'.
Proof.
  unfold _flush_emails. destruct (decide (batch = ∅)) as [->|Hne].
  - exists db. rewrite elements_empty. split; [done|]. split; [done|apply rewrote_refl].
  - eexists. split; [done|]. split; [done|].
    eexists. split; [apply keeps_emails_found|done].
Qed.

Lemma update_metrics_some now id p t db :
  _update_metrics now (Some id) p t db = Return tt (update_job id (metrics now t p) db).
Proof. done. Qed.

Lemma add_email_some now id batch email db :
  exists batch' db', add_email now (Some id) batch email db = Return batch' db' /\
    rewrote id db db' /\
    dom (emails db') ∪ batch' = dom (emails db) ∪ batch ∪ {[canon_email email]}.
Proof.
  unfold add_email. destruct (batch_size <=? _).
  - destruct (flush_some now id (batch ∪ {[canon_email email]}) db) as (db' & E & Em & R).
    exists ∅, db'. rewrite (bind_Return _ _ _ _ _ E). split; [done|]. split; [done|].
    rewrite Em, dom_flushed. set_solver.
  - exists (batch ∪ {[canon_email email]}), db. split; [done|].
    split; [apply rewrote_refl|set_solver].
Qed.

Lemma scan_loop_some now id found : forall batch db,
  exists batch' db', scan_loop now (Some id) batch found db = Return batch' db' /\
    rewrote id db db' /\
    dom (emails db') ∪ batch'
    = dom (emails db) ∪ batch ∪ list_to_set (canon_email <$> found).
Proof.
  induction found as [|email found IH]; intros batch db; cbn [scan_loop].
  - exists batch, db. split; [done|]. split; [apply rewrote_refl|set_solver].
  - destruct (add_email_some now id batch email db) as (b1 & db1 & E1 & R1 & D1).
    destruct (IH b1 db1) as (b2 & db2 & E2 & R2 & D2).
    exists b2, db2. rewrite (bind_Return _ _ _ _ _ E1). split; [done|].
    split; [by eapply rewrote_trans|]. rewrite D2, D1. set_solver.
Qed.

Lemma scan_one_some env now id w path fsize db :
  exists batch' db',
    scan_one env now (Some id) w (path, fsize) db
    = Return (batch', processed_bytes w + fsize) db' /\
    rewrote id db db' /\
    dom (emails db') ∪ batch' = dom (emails db) ∪ emails_batch w ∪ tokens env path.
Proof.
  unfold scan_one, tokens. destruct (looks_like_text path); cbn [negb].
  - destruct (scan_loop_some now id (scan_file env path) (emails_batch w) db)
      as (b & db1 & E & R & D).
    exists b, (update_job id (metrics now (t0 w) (processed_bytes w + fsize)) db1).
    rewrite (bind_Return _ _ _ _ _ E).
    split; [done|]. split; [|done].
    eapply rewrote_trans; [done|]. apply rewrote_update, keeps_metrics.
  - exists (emails_batch w), (update_job id (metrics now (t0 w) (processed_bytes w + fsize)) db).
    split; [done|]. split; [apply rewrote_update, keeps_metrics|].
    simpl. set_solver.
Qed.

Lemma goto_locals_empty p w :
  emails_batch w = ∅ -> goto p w = goto p (locals (t0 w) (processed_bytes w) ∅ w).
Proof. intros E. unfold goto, locals. simpl. by rewrite E. Qed.

Lemma leave_loop_some now id w db :
  exists db',
    leave_loop now (Some id) w db
    = (goto Finish (locals (t0 w) (processed_bytes w) ∅ w), db') /\
    emails db' = upsert_all (Qfloor now) (elements (emails_batch w)) (emails db) /\
    rewrote id db db'.
Proof.
  unfold leave_loop. destruct (decide (emails_batch w = ∅)) as [E|_].
  - exists db. rewrite E, elements_empty. split; [by rewrite <- goto_locals_empty|].
    split; [done|apply rewrote_refl].
  - destruct (flush_some now id (emails_batch w) db) as (db' & -> & H). by exists db'.
Qed.

Lemma stop_cancelled_some now w db :
  exists db',
    stop_cancelled now w db
    = (goto (if decide (emails_batch w = ∅) then Exit else Finish)
         (locals (t0 w) (processed_bytes w) ∅ w), db') /\
    emails db' = upsert_all (Qfloor now) (elements (emails_batch w)) (emails db) /\
    rewrote (job_id w) db db'.
Proof.
  unfold stop_cancelled. destruct (decide (emails_batch w = ∅)) as [E|_].
  - exists db. rewrite E, elements_empty. split; [by rewrite <- goto_locals_empty|].
    split; [done|apply rewrote_refl].
  - apply leave_loop_some.
Qed.

(** The record is gone: nothing of the batch is committed. *)
Lemma leave_loop_none now w db :
  db_get db (job_id w) = None ->
  leave_loop now None w db
  = (goto (if decide (emails_batch w = ∅) then Finish else Exit) w, db).
Proof.
  intros Hget. unfold leave_loop, _flush_emails.
  destruct (decide (emails_batch w = ∅)); [done|].
  unfold on_exception, db_get in *. simpl. by rewrite Hget.
Qed.

(** A file is scanned and counted; after the last one the batch is flushed. *)
Lemma process_file_some env now id w path fsize rest db :
  exists w' db',
    process_file env now (Some id) w (path, fsize) rest db = (w', db') /\
    job_id w' = job_id w /\ server_path w' = server_path w /\ t0 w' = t0 w /\
    processed_bytes w' = processed_bytes w + fsize /\
    at_ w' = match rest with [] => Finish | f :: rest' => Loop f rest' end /\
    rewrote id db db' /\
    dom (emails db') ∪ emails_batch w'
    = dom (emails db) ∪ emails_batch w ∪ tokens env path /\
    (rest = [] -> emails_batch w' = ∅).
Proof.
  destruct (scan_one_some env now id w path fsize db) as (b & db1 & E & R & D).
  unfold process_file. rewrite E. unfold next_file. destruct rest as [|f rest'].
  - destruct (leave_loop_some now id (locals (t0 w) (processed_bytes w + fsize) b w) db1)
      as (db' & -> & Em & R').
    eexists _, db'. split; [done|]. repeat split; try done.
    + by eapply rewrote_trans.
    + cbn [emails_batch locals goto] in *. rewrite Em, dom_flushed. clear -D. set_solver.
  - eexists _, db1. split; [done|]. repeat split; done.
Qed.

(** ** A run of one worker that nobody interrupts *)

Lemma run_ticks env n clocks : forall s w,
  threads s !! n = Some w ->
  run env (Tick n <$> clocks) s
  = {| db := snd (ticks env clocks w (db s));
       threads := <[n := fst (ticks env clocks w (db s))]> (threads s) |}.
Proof.
  unfold run. induction clocks as [|now clocks IH]; intros s w Hw; simpl.
  - rewrite list_insert_id by done. by destruct s.
  - rewrite Hw. destruct (tick env now w (db s)) as [w' db'] eqn:E. simpl.
    rewrite (IH _ w'); simpl.
    + by rewrite list_insert_insert_eq.
    + apply list_lookup_insert_eq. by eapply lookup_lt_Some.
Qed.

Lemma undisturbed_rewrote id db db' :
  rewrote id db db' -> undisturbed db id -> undisturbed db' id.
Proof.
  intros R (j & Hj & Hp & Hc).
  destruct (rewrote_lookup _ _ _ _ R Hj) as (j' & Hj' & _ & Ep & Ec).
  exists j'. by rewrite Ep, Ec.
Qed.

Lemma tick_loop_undisturbed env now w db path fsize rest :
  at_ w = Loop (path, fsize) rest -> undisturbed db (job_id w) ->
  exists w' db',
    tick env now w db = (w', db') /\
    job_id w' = job_id w /\ server_path w' = server_path w /\ t0 w' = t0 w /\
    processed_bytes w' = processed_bytes w + fsize /\
    at_ w' = match rest with [] => Finish | f :: rest' => Loop f rest' end /\
    rewrote (job_id w) db db' /\
    dom (emails db') ∪ emails_batch w'
    = dom (emails db) ∪ emails_batch w ∪ tokens env path /\
    (rest = [] -> emails_batch w' = ∅).
Proof.
  intros Hat (j & Hj & Hp & Hc). unfold tick, db_get. rewrite Hat, Hj, Hc, Hp.
  apply process_file_some.
Qed.

Lemma ticks_loop env : forall rest cur clocks w db,
  at_ w = Loop cur rest -> undisturbed db (job_id w) ->
  length clocks = S (length rest) ->
  exists w' db',
    ticks env clocks w db = (w', db') /\
    job_id w' = job_id w /\ t0 w' = t0 w /\ at_ w' = Finish /\
    processed_bytes w' = processed_bytes w + sum_sizes (cur :: rest) /\
    emails_batch w' = ∅ /\
    rewrote (job_id w) db db' /\
    dom (emails db') = dom (emails db) ∪ emails_batch w ∪ all_tokens env (cur :: rest).
Proof.
  induction rest as [|f rest IH]; intros [path fsize] clocks w db Hat Hq Hlen;
    destruct clocks as [|now clocks]; simplify_eq/=.
  - destruct clocks; [|done].
    destruct (tick_loop_undisturbed env now w db path fsize [] Hat Hq)
      as (w' & db' & -> & Hid & _ & Ht & Hpb & Hat' & R & D & Hb).
    exists w', db'. rewrite (Hb eq_refl) in *. repeat split; try done; [lia|].
    unfold all_tokens. simpl. clear -D. set_solver.
  - destruct (tick_loop_undisturbed env now w db path fsize (f :: rest) Hat Hq)
      as (w1 & db1 & -> & Hid & _ & Ht & Hpb & Hat' & R & D & _).
    destruct (IH f clocks w1 db1) as (w' & db' & E & Hid' & Ht' & Hfin & Hpb' & Hb' & R' & D');
      [done| |lia|].
    { rewrite Hid. by eapply undisturbed_rewrote. }
    exists w', db'. rewrite E. split; [done|]. rewrite Hid', Ht', Hid, Ht.
    repeat split; try done.
    + rewrite Hpb', Hpb. simpl. lia.
    + rewrite Hid in R'. by eapply rewrote_trans.
    + rewrite D'. unfold all_tokens. simpl. clear -D. set_solver.
Qed.

Lemma tick_start_undisturbed env now w db :
  at_ w = Start -> emails_batch w = ∅ -> undisturbed db (job_id w) ->
  exists w' db',
    tick env now w db = (w', db') /\
    job_id w' = job_id w /\ processed_bytes w' = 0 /\ emails_batch w' = ∅ /\
    at_ w' = match iter_files (fs env) (server_path w) with
             | [] => Finish
             | f :: rest => Loop f rest
             end /\
    undisturbed db' (job_id w) /\ emails db' = emails db.
Proof.
  intros Hat Hb (j & Hj & Hp & Hc). unfold tick, db_get. rewrite Hat, Hj.
  unfold next_file. set (db1 := update_job _ _ db).
  assert (Hq : undisturbed db1 (job_id w)).
  { eexists. unfold db1. simpl. rewrite lookup_alter_eq, Hj. simpl. done. }
  destruct (iter_files (fs env) (server_path w)) as [|f rest].
  - destruct (leave_loop_some now (job_id w) (locals now 0 ∅ w) db1) as (db' & -> & Em & R).
    eexists _, db'. split; [done|]. split_and!; try done.
    all: try by eapply undisturbed_rewrote.
    all: rewrite Em; simpl; by rewrite elements_empty.
  - eexists _, db1. split; [done|]. split_and!; done.
Qed.

Lemma tick_finish_undisturbed env now w db :
  at_ w = Finish -> undisturbed db (job_id w) ->
  exists w' db' j',
    tick env now w db = (w', db') /\ at_ w' = Exit /\
    jobs db' !! job_id w = Some j' /\ Job.status j' = "done" /\
    Job.processed_bytes j' = processed_bytes w /\ emails db' = emails db.
Proof.
  intros Hat (j & Hj & Hp & Hc). unfold tick, db_get. rewrite Hat, Hj, Hc. simpl.
  eexists _, _, _. split; [done|]. split; [done|].
  unfold update_job, with_jobs. cbn [jobs emails].
  rewrite lookup_alter_eq, Hj. simpl. split; [done|].
  destruct (metrics_fields now (t0 w) (processed_bytes w)
              (Job.set_finished_ts (Some now) (Job.set_status "done" j)))
    as (-> & _ & -> & _). done.
Qed.

Lemma ticks_app env a : forall b w db,
  ticks env (a ++ b) w db = ticks env b (fst (ticks env a w db)) (snd (ticks env a w db)).
Proof.
  induction a as [|now a IH]; intros b w db; simpl; [done|].
  destruct (tick env now w db) as [w' db']. apply IH.
Qed.

Lemma ticks_undisturbed env clocks w db :
  at_ w = Start -> emails_batch w = ∅ -> undisturbed db (job_id w) ->
  length clocks = (length (iter_files (fs env) (server_path w)) + 2)%nat ->
  exists w' db' j',
    ticks env clocks w db = (w', db') /\ at_ w' = Exit /\
    jobs db' !! job_id w = Some j' /\ Job.status j' = "done" /\
    Job.processed_bytes j' = sum_sizes (iter_files (fs env) (server_path w)) /\
    dom (emails db') = dom (emails db) ∪ all_tokens env (iter_files (fs env) (server_path w)).
Proof.
  intros Hat Hb Hq Hlen.
  destruct clocks as [|c0 clocks]; [simpl in Hlen; lia|].
  destruct (tick_start_undisturbed env c0 w db Hat Hb Hq)
    as (w1 & db1 & E1 & Hid1 & Hpb1 & Hb1 & Hat1 & Hq1 & Em1).
  cbn [ticks]. rewrite E1.
  destruct (iter_files (fs env) (server_path w)) as [|f rest] eqn:Ef.
  - destruct clocks as [|c1 [|]]; simplify_eq/=.
    rewrite <- Hid1 in Hq1.
    destruct (tick_finish_undisturbed env c1 w1 db1 Hat1 Hq1)
      as (w' & db' & j' & -> & Hex & Hj' & Hs & Hp & Em).
    exists w', db', j'. rewrite <- Hid1. repeat split; try done; [congruence|].
    rewrite Em, Em1. unfold all_tokens. simpl. set_solver.
  - assert (exists (front : list Q) c,
              clocks = (front ++ [c])%list /\ length front = S (length rest))
      as (front & c & -> & Hfront).
    { destruct (exists_last (l := clocks)) as (front & c & ->).
      { intros ->. simpl in Hlen. lia. }
      exists front, c. split; [done|]. simpl in Hlen. rewrite length_app in Hlen.
      simpl in Hlen. lia. }
    rewrite ticks_app. rewrite <- Hid1 in Hq1.
    destruct (ticks_loop env rest f front w1 db1 Hat1 Hq1 Hfront)
      as (w2 & db2 & -> & Hid2 & _ & Hat2 & Hpb2 & Hb2 & R2 & D2).
    cbn [fst snd ticks].
    assert (Hq2 : undisturbed db2 (job_id w2)).
    { rewrite Hid2. by eapply undisturbed_rewrote. }
    destruct (tick_finish_undisturbed env c w2 db2 Hat2 Hq2)
      as (w' & db' & j' & -> & Hex & Hj' & Hs & Hp & Em).
    exists w', db', j'. rewrite <- Hid1, <- Hid2. repeat split; try done.
    + rewrite Hp, Hpb2, Hpb1. lia.
    + rewrite Em, D2, Em1, Hb1. set_solver.
Qed.

(** ** Any move of a worker *)

Lemma rewrote_wrote p id db db' : rewrote id db db' -> wrote p id db db'.
Proof.
  intros (f & Hf & E). exists f. split; [|done]. intros j.
  destruct (Hf j) as (_ & Hs & Hp & Hc & _). split_and!; auto.
Qed.

Lemma wrote_rewrote p id a b c : wrote p id a b -> rewrote id b c -> wrote p id a c.
Proof.
  intros (g & Hg & Eg) (f & Hf & Ef). exists (f ∘ g). split.
  - intros j. simpl. destruct (Hg j) as (Hc & Hp & Hs).
    destruct (Hf (g j)) as (_ & Es & Ep & Ec & _).
    unfold writes. rewrite Es, Ep, Ec. done.
  - by rewrite Ef, Eg, alter_twice.
Qed.

Lemma wrote_same p id db : wrote p id db db.
Proof. apply rewrote_wrote, rewrote_refl. Qed.

Lemma next_file_some now id w rest db :
  exists w' db', next_file now (Some id) w rest db = (w', db') /\
    job_id w' = job_id w /\ rewrote id db db' /\
    dom (emails db') ∪ emails_batch w' = dom (emails db) ∪ emails_batch w.
Proof.
  unfold next_file. destruct rest as [|f rest].
  - destruct (leave_loop_some now id w db) as (db' & -> & Em & R).
    eexists _, db'. split; [done|]. split_and!; try done.
    rewrite Em, dom_flushed. simpl. set_solver.
  - eexists _, db. split; [done|]. split_and!; try done. apply rewrote_refl.
Qed.

Lemma tick_spec env now w db :
  exists w' db', tick env now w db = (w', db') /\
    job_id w' = job_id w /\
    wrote (at_ w) (job_id w) db db' /\
    dom (emails db') ∪ emails_batch w'
      ⊆ dom (emails db) ∪ emails_batch w ∪ read_at env (at_ w).
Proof.
  unfold tick. destruct (at_ w) as [|[path fsize] rest|[path fsize] rest| |] eqn:Hat;
    destruct (db_get db (job_id w)) as [j|] eqn:Hj.
  - set (db1 := update_job _ _ db).
    destruct (next_file_some now (job_id w) (locals now 0 ∅ w)
                (iter_files (fs env) (server_path w)) db1) as (w' & db' & -> & Hid & R & D).
    exists w', db'. split; [done|]. split; [done|]. split.
    + eapply wrote_rewrote; [|done]. eexists. split; [|done].
      intros j0. unfold writes. simpl. split_and!; [done|done|]. right; left. done.
    + rewrite D. simpl. set_solver.
  - eexists _, _. split; [done|]. split; [done|]. split; [apply wrote_same|]. simpl. set_solver.
  - destruct (Job.cancelled j); [|destruct (Job.paused j)].
    + destruct (stop_cancelled_some now w db) as (db' & -> & Em & R).
      eexists _, db'. split; [done|]. split; [done|]. split; [by apply rewrote_wrote|].
      rewrite Em, dom_flushed. simpl. set_solver.
    + eexists _, _. split; [done|]. split; [done|]. split; [apply wrote_same|].
      simpl. set_solver.
    + destruct (process_file_some env now (job_id w) w path fsize rest db)
        as (w' & db' & -> & Hid & _ & _ & _ & _ & R & D & _).
      exists w', db'. split; [done|]. split; [done|]. split; [by apply rewrote_wrote|].
      rewrite D. simpl. set_solver.
  - rewrite leave_loop_none by done.
    eexists _, _. split; [done|]. split; [done|]. split; [apply wrote_same|].
    simpl. set_solver.
  - eexists _, _. split; [done|]. split; [done|]. split; [apply wrote_same|]. set_solver.
  - eexists _, _. split; [done|]. split; [done|]. split; [apply wrote_same|]. set_solver.
  - destruct (Job.cancelled j) eqn:Hc; simpl.
    + eexists _, _. split; [done|]. split; [done|]. split; [apply wrote_same|].
      simpl. set_solver.
    + eexists _, _. split; [done|]. split; [done|]. split; [|simpl; set_solver].
      exists (fun j => if Job.cancelled j then j
                       else metrics now (t0 w) (processed_bytes w)
                              (Job.set_finished_ts (Some now) (Job.set_status "done" j))).
      split.
      * intros j0. destruct (Job.cancelled j0) eqn:E0; unfold writes; [auto|].
        destruct (metrics_fields now (t0 w) (processed_bytes w)
                    (Job.set_finished_ts (Some now) (Job.set_status "done" j0)))
          as (_ & _ & -> & -> & -> & _). simpl.
        split_and!; [done|done|]. right; right. done.
      * simpl. apply map_eq. intros k. destruct (decide (job_id w = k)) as [<-|].
        -- unfold db_get in Hj. rewrite !lookup_alter_eq, Hj. simpl. by rewrite Hc.
        -- by rewrite !lookup_alter_ne.
  - eexists _, _. split; [done|]. split; [done|]. split; [apply wrote_same|].
    simpl. set_solver.
  - eexists _, _. split; [done|]. split; [done|]. split; [apply wrote_same|].
    simpl. set_solver.
  - eexists _, _. split; [done|]. split; [done|]. split; [apply wrote_same|].
    simpl. set_solver.
Qed.

(** ** The states the system can be in *)

Lemma run_snoc env evs ev s :
  run env (evs ++ [ev])%list s = fst (step env ev (run env evs s)).
Proof. unfold run. by rewrite fold_left_app. Qed.

Lemma run_ind env (P : Sys -> Prop) :
  P boot -> (forall s ev, P s -> P (fst (step env ev s))) ->
  forall evs, P (run env evs boot).
Proof.
  intros H0 Hstep evs. induction evs as [|ev evs IH] using rev_ind; [done|].
  rewrite run_snoc. by apply Hstep.
Qed.

Lemma fresh_id_bound (m : gmap Z Job.t) k j :
  m !! k = Some j -> k < fresh_id m.
Proof.
  unfold fresh_id. revert k j.
  apply (map_fold_weak_ind
           (fun r (m : gmap Z Job.t) => forall k j, m !! k = Some j -> k < 1 + r)).
  - intros k j. by rewrite lookup_empty.
  - intros i x m' r Hi IH k j. destruct (decide (i = k)) as [->|].
    + lia.
    + rewrite lookup_insert_ne by done. intros H. specialize (IH _ _ H). lia.
Qed.

Lemma fresh_id_fresh (m : gmap Z Job.t) : m !! fresh_id m = None.
Proof.
  destruct (m !! fresh_id m) as [j|] eqn:E; [|done].
  apply fresh_id_bound in E. lia.
Qed.

(** A submission adds at most one row, under a key that was free. *)
Lemma create_job_jobs env now f db :
  emails (fst (fst (create_job env now f db))) = emails db /\
  (jobs (fst (fst (create_job env now f db))) = jobs db \/
   exists j, Job.status j = "queued" /\ Job.cancelled j = false /\
             jobs db !! Job.id j = None /\
             jobs (fst (fst (create_job env now f db))) = <[Job.id j := j]> (jobs db)).
Proof.
  unfold create_job. set (path := Py.str_or _ _).
  destruct (String.eqb path _); [simpl; auto|].
  destruct (negb (isabs path)); [simpl; auto|].
  destruct (negb (exists_ (fs env) path)); [simpl; auto|].
  destruct (iter_files (fs env) path) as [|f0 files]; [simpl; auto|].
  cbv zeta. destruct (int64 _ && int64 _); [|simpl; auto].
  cbn [fst snd]. split; [done|]. right.
  exists (new_job now f (fresh_id (jobs db)) (sum_sizes (f0 :: files))).
  split_and!; try done. apply fresh_id_fresh.
Qed.

Lemma create_job_thread env now f db id path :
  snd (create_job env now f db) = Some (id, path) ->
  emails_batch (spawn id path) = ∅.
Proof. done. Qed.

(** *** Moves of the threads *)

Lemma step_tick env n now s w :
  threads s !! n = Some w ->
  fst (step env (Tick n now) s)
  = {| db := snd (tick env now w (db s));
       threads := <[n := fst (tick env now w (db s))]> (threads s) |}.
Proof. intros H. simpl. rewrite H. by destruct (tick env now w (db s)). Qed.

Lemma step_tick_none env n now s :
  threads s !! n = None -> fst (step env (Tick n now) s) = s.
Proof. intros H. simpl. by rewrite H. Qed.

Lemma step_crash env n s w :
  threads s !! n = Some w ->
  fst (step env (Crash n) s)
  = {| db := snd (crash w (db s));
       threads := <[n := fst (crash w (db s))]> (threads s) |}.
Proof. intros H. simpl. rewrite H. by destruct (crash w (db s)). Qed.

Lemma step_crash_none env n s :
  threads s !! n = None -> fst (step env (Crash n) s) = s.
Proof. intros H. simpl. by rewrite H. Qed.

(** The handler marks the row failed when there is one, and ends the
    thread. *)
Lemma crash_spec w db :
  (calls_store (at_ w) = false /\ crash w db = (w, db)) \/
  (calls_store (at_ w) = true /\ db_get db (job_id w) = None /\
   crash w db = (goto Exit w, db)) \/
  (calls_store (at_ w) = true /\ is_Some (db_get db (job_id w)) /\
   crash w db = (goto Exit w, update_job (job_id w) (Job.set_status "failed") db)).
Proof.
  unfold crash, on_exception. destruct (calls_store (at_ w)); [|by left]. right.
  destruct (db_get db (job_id w)) eqn:E; [right|left]; eauto.
Qed.

Lemma crash_thread w db :
  fst (crash w db) = w \/ fst (crash w db) = goto Exit w.
Proof.
  destruct (crash_spec w db) as [[_ ->]|[(_ & _ & ->)|(_ & _ & ->)]]; auto.
Qed.

Lemma crash_emails w db : emails (snd (crash w db)) = emails db.
Proof.
  by destruct (crash_spec w db) as [[_ ->]|[(_ & _ & ->)|(_ & _ & ->)]].
Qed.

(** *** Tokens *)

Lemma canon_match_lowercase s : re_lang EMAIL_RE s -> lowercase_token (canon_email s).
Proof.
  intros (_ & _ & E & Hne)%canon_email_match. split; [done|].
  rewrite E. apply lower_no_upper.
Qed.

(** What [scan_file] yields: a trimmed, nonempty line of the external
    matcher, or a match of the pattern. *)
Lemma scan_file_cases env path x :
  In x (scan_file env path) ->
  (exists lines line, rg env path = Some lines /\ In line lines /\
                      x = Py.strip line /\ x <> EmptyString) \/
  (rg env path = None /\ re_lang EMAIL_RE x).
Proof.
  unfold scan_file. destruct (rg env path) as [lines|] eqn:E.
  - rewrite <- list_elem_of_In, list_elem_of_filter, list_elem_of_In, in_map_iff.
    intros [Hx (line & <- & Hin)]. left. eauto 6.
  - destruct (resolve (fs env) path) as [[sz [text|]|]|]; try done.
    rewrite in_flat_map. intros (chunk & _ & H). right. split; [done|].
    by eapply finditer_sound.
Qed.

Section Tokens.

Variable env : Env.
Variable P : string -> Prop.
Hypothesis tokens_P : forall path t, t ∈ tokens env path -> P t.

Lemma read_at_ok p t : t ∈ read_at env p -> P t.
Proof.
  destruct p as [|[path sz] rest|[path sz] rest| |]; simpl;
    try set_solver; apply tokens_P.
Qed.

Lemma step_tokens_ok ev s : tokens_ok P s -> tokens_ok P (fst (step env ev s)).
Proof.
  intros [Hreg Hbatch].
  destruct ev as [now f|id|id|id|id|n now|n]; try (split; [exact Hreg|exact Hbatch]).
  - pose proof (create_job_jobs env now f (db s)) as [Em _].
    unfold tokens_ok. simpl.
    destruct (create_job env now f (db s)) as [[db' r] [[id path]|]];
      simpl in *; rewrite Em; (split; [done|]); [|done].
    intros n w t [Hw|[_ Hw]]%lookup_app_Some; [by eapply Hbatch|].
    apply list_lookup_singleton_Some in Hw as [_ <-]. set_solver.
  - destruct (threads s !! n) as [w|] eqn:Hw; [|by simpl; rewrite Hw].
    rewrite (step_tick _ _ _ _ _ Hw).
    destruct (tick_spec env now w (db s)) as (w' & db' & E & _ & _ & D).
    rewrite E. simpl.
    assert (Hall : forall t, t ∈ dom (emails db') ∪ emails_batch w' -> P t).
    { intros t Ht. apply D in Ht. apply elem_of_union in Ht as [Ht|Ht].
      - apply elem_of_union in Ht as [Ht|Ht]; [by apply Hreg|by eapply Hbatch].
      - by eapply read_at_ok. }
    split; [intros t Ht; apply Hall; set_solver|].
    intros m w0 t Hm Ht. simpl in Hm. destruct (decide (n = m)) as [->|Hne].
    + rewrite list_lookup_insert_eq in Hm by by eapply lookup_lt_Some.
      simplify_eq. apply Hall. set_solver.
    + rewrite list_lookup_insert_ne in Hm by done. by eapply Hbatch.
  - destruct (threads s !! n) as [w|] eqn:Hw; [|by simpl; rewrite Hw].
    rewrite (step_crash _ _ _ _ Hw). split; cbn [db threads].
    + rewrite crash_emails. exact Hreg.
    + intros m w0 t Hm Ht. destruct (decide (n = m)) as [->|Hne].
      * rewrite list_lookup_insert_eq in Hm by by eapply lookup_lt_Some.
        injection Hm as <-. apply (Hbatch m w t Hw).
        by destruct (crash_thread w (db s)) as [E|E]; rewrite E in Ht.
      * rewrite list_lookup_insert_ne in Hm by done. by eapply Hbatch.
Qed.

Lemma reach_tokens_ok evs : tokens_ok P (run env evs boot).
Proof.
  apply run_ind.
  - split; [set_solver|]. intros n w t. simpl. by rewrite lookup_nil.
  - intros s ev. by apply step_tokens_ok.
Qed.

End Tokens.

(** * The claims *)

Import Scenario.

(** ** Registry counts *)

Lemma seen_flushed now (batch : gset string) db db' t :
  emails db' = upsert_all now (elements batch) (emails db) ->
  seen db' t = seen db t + (if decide (t ∈ batch) then 1 else 0).
Proof.
  intros E. unfold seen. rewrite E, lookup_flushed.
  destruct (decide (t ∈ batch)); [|lia].
  by destruct (emails db !! t).
Qed.

(** C1, as the code has it: a flush adds exactly one to the count of every
    token of the flushed batch and leaves the other counts alone, so that
    after any sequence of flushes the count of a token has grown by the
    number of flushed batches that hold it.  A batch is a set: a token
    observed several times while one batch is built is counted once. *)
Theorem seen_count_counts_batches (batches : list (Q * Z * gset string)) :
  forall (db : DB) (t : string),
  exists db',
    flush_all batches db = Return tt db' /\
    seen db' t = seen db t + Z.of_nat (length (filter (fun b => t ∈ b.2) batches)).
Proof.
  induction batches as [|[[now id] batch] batches IH]; intros db t.
  - exists db. split; [done|]. simpl. lia.
  - destruct (flush_some now id batch db) as (db1 & E1 & Em & _).
    destruct (IH db1 t) as (db' & E' & Hs).
    exists db'. cbn [flush_all]. rewrite (bind_Return _ _ _ _ _ E1).
    split; [done|]. rewrite Hs, (seen_flushed _ _ _ _ _ Em).
    rewrite filter_cons. simpl. destruct (decide (t ∈ batch)); simpl; lia.
Qed.

(** C1, as stated, fails: one job scans a file that holds the token twice;
    the token is observed twice and its count is 1. *)
Lemma seen_count_misses_duplicates :
  let s := run env_twice [Submit 0 (submit "/data"); Tick 0 1; Tick 0 2; Tick 0 3] boot in
  observations env_twice (iter_files (fs env_twice) "/data") "a@b.co" = 2%nat /\
  seen (db s) "a@b.co" = 1 /\
  seen (db s) "a@b.co"
  <> Z.of_nat (observations env_twice (iter_files (fs env_twice) "/data") "a@b.co").
Proof. vm_compute. split_and!; [reflexivity|reflexivity|discriminate]. Qed.

(** ** Canonicalization *)

(** Canonicalization is idempotent on every string which, trimmed and
    lowercased, is not enclosed in angle brackets. *)
Lemma canon_email_idempotent_open (x : string) :
  enclosed (Py.lower (Py.strip x)) = false ->
  canon_email (canon_email x) = canon_email x.
Proof.
  intros H. rewrite (canon_email_open x H).
  rewrite canon_email_open; by rewrite strip_lower, strip_idem, lower_idem.
Qed.

(** ** Terminal status *)

(** The status that a move of a worker leaves in the row of its job. *)
Lemma tick_status env now w db j :
  db_get db (job_id w) = Some j ->
  Job.status <$> jobs (snd (tick env now w db)) !! job_id w
  = Some (match at_ w with
          | Start => "running"
          | Finish => if Job.cancelled j then Job.status j else "done"
          | _ => Job.status j
          end).
Proof.
  intros Hj. pose proof Hj as Hrow. unfold db_get in Hrow. unfold tick.
  destruct (at_ w) as [|[path fsize] rest|cur rest| |]; rewrite ?Hj.
  - set (db1 := update_job _ _ db).
    destruct (next_file_some now (job_id w) (locals now 0 ∅ w)
                (iter_files (fs env) (server_path w)) db1) as (w' & db' & -> & _ & R & _).
    destruct (rewrote_lookup (job_id w) db1 db'
                (Job.set_started_ts now (Job.set_processed_bytes 0
                                           (Job.set_status "running" j))) R)
      as (j' & Hj' & Hs & _).
    { unfold db1, update_job, with_jobs. cbn [jobs]. by rewrite lookup_alter_eq, Hrow. }
    cbn [snd]. rewrite Hj'. simpl. by rewrite Hs.
  - destruct (Job.cancelled j); [|destruct (Job.paused j)].
    + destruct (stop_cancelled_some now w db) as (db' & -> & _ & R).
      destruct (rewrote_lookup _ _ _ _ R Hrow) as (j' & Hj' & Hs & _).
      cbn [snd]. rewrite Hj'. simpl. by rewrite Hs.
    + cbn [snd]. by rewrite Hrow.
    + destruct (process_file_some env now (job_id w) w path fsize rest db)
        as (w' & db' & -> & _ & _ & _ & _ & _ & R & _).
      destruct (rewrote_lookup _ _ _ _ R Hrow) as (j' & Hj' & Hs & _).
      cbn [snd]. rewrite Hj'. simpl. by rewrite Hs.
  - cbn [snd]. by rewrite Hrow.
  - destruct (Job.cancelled j); cbn [negb snd]; [by rewrite Hrow|].
    unfold update_job, with_jobs. cbn [jobs]. rewrite lookup_alter_eq, Hrow. simpl.
    by destruct (metrics_fields now (t0 w) (processed_bytes w)
                   (Job.set_finished_ts (Some now) (Job.set_status "done" j)))
      as (_ & _ & -> & _).
  - cbn [snd]. by rewrite Hrow.
Qed.

(** C3, as the code has it: whatever the status of a job is, and so when
    it is terminal, every event leaves it as it is, except a resume, a
    cancel or a delete of that job and three moves of a worker of that job.
    A resume sets it to running and a cancel to cancelled, whatever it was.
    A worker sets it to running at its start, to done at its completion
    unless it reads the cancelled flag set, and to failed from its
    exception handler.  An event is a request of the job API or a move of a
    worker from one read of its record to the next, taken as one step. *)
Theorem terminal_status_kept (env : Env) (s : Sys) (id : Z) (j : Job.t) :
  jobs (db s) !! id = Some j ->
  terminal (Job.status j) = true ->
  (forall ev, ~ rewrites_status s id ev ->
     status_of (fst (step env ev s)) id = Some (Job.status j)) /\
  status_of (fst (step env (Resume id) s)) id = Some "running" /\
  status_of (fst (step env (Cancel id) s)) id = Some "cancelled" /\
  status_of (fst (step env (Delete id) s)) id = None /\
  (forall n w now, threads s !! n = Some w -> job_id w = id ->
     (at_ w = Start ->
      status_of (fst (step env (Tick n now) s)) id = Some "running") /\
     (at_ w = Finish ->
      status_of (fst (step env (Tick n now) s)) id
      = Some (if Job.cancelled j then Job.status j else "done")) /\
     (calls_store (at_ w) = true ->
      status_of (fst (step env (Crash n) s)) id = Some "failed")).
Proof.
  intros Hj _. unfold status_of. split_and!.
  - intros ev Hev. destruct ev as [now f|k|k|k|k|n now|n]; simpl in Hev.
    + assert (E : db (fst (step env (Submit now f) s))
                  = fst (fst (create_job env now f (db s)))).
      { simpl. by destruct (create_job env now f (db s)) as [[db' r] [[i path]|]]. }
      rewrite E.
      destruct (create_job_jobs env now f (db s)) as [_ [->|(j0 & _ & _ & Hfree & ->)]].
      * by rewrite Hj.
      * rewrite lookup_insert_ne, Hj; [done|]. intros Heq. rewrite Heq in Hfree. congruence.
    + simpl. destruct (decide (k = id)) as [->|].
      * by rewrite lookup_alter_eq, Hj.
      * by rewrite lookup_alter_ne, Hj.
    + simpl. by rewrite lookup_alter_ne, Hj.
    + simpl. by rewrite lookup_alter_ne, Hj.
    + simpl. by rewrite lookup_delete_ne, Hj.
    + destruct (threads s !! n) as [w|] eqn:Hw; [|by rewrite step_tick_none, Hj].
      rewrite (step_tick _ _ _ _ _ Hw). cbn [db].
      destruct (decide (job_id w = id)) as [Hid|Hid].
      * subst id. rewrite (tick_status env now w (db s) j Hj). f_equal.
        destruct (at_ w) eqn:Hat; try done; exfalso; apply Hev; eauto.
      * destruct (tick_spec env now w (db s)) as (w' & db' & E & _ & (f & _ & Ej) & _).
        rewrite E. cbn [snd]. by rewrite Ej, lookup_alter_ne, Hj.
    + destruct (threads s !! n) as [w|] eqn:Hw; [|by rewrite step_crash_none, Hj].
      rewrite (step_crash _ _ _ _ Hw). cbn [db].
      destruct (crash_spec w (db s)) as [[_ ->]|[(_ & _ & ->)|(Hc & _ & ->)]];
        cbn [snd]; try by rewrite Hj.
      unfold update_job, with_jobs. cbn [jobs].
      destruct (decide (job_id w = id)) as [Hid|Hid]; [exfalso; apply Hev; eauto|].
      by rewrite lookup_alter_ne, Hj.
  - simpl. by rewrite lookup_alter_eq, Hj.
  - simpl. by rewrite lookup_alter_eq, Hj.
  - simpl. by rewrite lookup_delete_eq.
  - intros n w now Hw Hid. subst id. split_and!.
    + intros Hat. rewrite (step_tick _ _ _ _ _ Hw). cbn [db].
      by rewrite (tick_status env now w (db s) j Hj), Hat.
    + intros Hat. rewrite (step_tick _ _ _ _ _ Hw). cbn [db].
      by rewrite (tick_status env now w (db s) j Hj), Hat.
    + intros Hc. rewrite (step_crash _ _ _ _ Hw). cbn [db].
      unfold crash, on_exception. rewrite Hc. unfold db_get. rewrite Hj. cbn [snd].
      unfold update_job, with_jobs. cbn [jobs]. by rewrite lookup_alter_eq, Hj.
Qed.

Lemma terminal_status_kept_witness :
  let evs := [Submit 0 (submit "/data"); Tick 0 1; Tick 0 2; Tick 0 3] in
  status_of (run (env_A false) evs boot) 1 = Some "done" /\
  status_of (fst (step (env_A false) (Pause 1) (run (env_A false) evs boot))) 1 = Some "done" /\
  status_of (fst (step (env_A false) (Tick 0 4) (run (env_A false) evs boot))) 1 = Some "done" /\
  status_of (fst (step (env_A false) (Cancel 1) (run (env_A false) evs boot))) 1
  = Some "cancelled".
Proof.
  intros evs. split; [vm_compute; reflexivity|].
  destruct (jobs (db (run (env_A false) evs boot)) !! 1) as [j|] eqn:Hj;
    [|vm_compute in Hj; discriminate].
  assert (Hs : Job.status j = "done").
  { vm_compute in Hj. injection Hj as <-. reflexivity. }
  assert (Ht : terminal (Job.status j) = true) by (rewrite Hs; reflexivity).
  destruct (terminal_status_kept (env_A false) (run (env_A false) evs boot) 1 j Hj Ht)
    as (Hkept & _ & Hcancel & _).
  rewrite <- Hs. split_and!.
  - apply Hkept. simpl. tauto.
  - apply Hkept. intros (w & Hw & _ & [Hat|Hat]); vm_compute in Hw; injection Hw as <-;
      discriminate Hat.
  - exact Hcancel.
Defined.

(** C3, as stated, fails: a resume of a job that is done sets its status to
    running. *)
Lemma resume_rewrites_terminal_status :
  let s := run (env_A false) [Submit 0 (submit "/data"); Tick 0 1; Tick 0 2; Tick 0 3] boot in
  Job.status <$> jobs (db s) !! 1 = Some "done" /\
  terminal "done" = true /\
  Job.status <$> jobs (db (fst (step (env_A false) (Resume 1) s))) !! 1 = Some "running".
Proof. vm_compute. split_and!; reflexivity. Qed.

(** *** When a second canonicalization changes nothing *)

Lemma lstrip_length s : (String.length (Py.lstrip s) <= String.length s)%nat.
Proof. induction s as [|c s IH]; simpl; [lia|]. destruct (Py.isspace c); simpl; lia. Qed.

Lemma rstrip_length s : (String.length (Py.rstrip s) <= String.length s)%nat.
Proof.
  induction s as [|c s IH]; simpl; [lia|].
  destruct (Py.rstrip s) as [|d r].
  - destruct (Py.isspace c); simpl; lia.
  - cbn [String.length] in *. lia.
Qed.

Lemma lstrip_same_length s :
  String.length (Py.lstrip s) = String.length s -> Py.lstrip s = s.
Proof.
  destruct s as [|c s]; simpl; [done|]. destruct (Py.isspace c); [|done].
  pose proof (lstrip_length s). lia.
Qed.

Lemma rstrip_same_length s :
  String.length (Py.rstrip s) = String.length s -> Py.rstrip s = s.
Proof.
  induction s as [|c s IH]; simpl; [done|].
  pose proof (rstrip_length s).
  destruct (Py.rstrip s) as [|d r] eqn:E; simpl in *.
  - destruct (Py.isspace c); simpl; [lia|]. intros [= Hs]. destruct s; [done|simpl in Hs; lia].
  - intros [= Hs]. by rewrite IH.
Qed.

Lemma strip_same_length s :
  String.length (Py.strip s) = String.length s -> Py.strip s = s.
Proof.
  unfold Py.strip. intros H.
  pose proof (lstrip_length s). pose proof (rstrip_length (Py.lstrip s)).
  rewrite rstrip_same_length by lia. apply lstrip_same_length. lia.
Qed.

Lemma strip_length s : (String.length (Py.strip s) <= String.length s)%nat.
Proof.
  unfold Py.strip. pose proof (lstrip_length s). pose proof (rstrip_length (Py.lstrip s)). lia.
Qed.

Lemma take_length n s : (String.length (Py.take n s) <= n)%nat.
Proof. revert s. induction n as [|n IH]; intros [|c s]; simpl; try lia. specialize (IH s). lia. Qed.

Lemma lower_take n s : Py.lower (Py.take n s) = Py.take n (Py.lower s).
Proof. revert s. induction n as [|n IH]; intros [|c s]; simpl; try done. by rewrite IH. Qed.

Lemma lower_drop n s : Py.lower (Py.drop n s) = Py.drop n (Py.lower s).
Proof. revert s. induction n as [|n IH]; intros [|c s]; simpl; try done. Qed.

Lemma lower_slice s i j : Py.lower (Py.slice s i j) = Py.slice (Py.lower s) i j.
Proof.
  unfold Py.slice, Py.bound, Py.len. by rewrite lower_take, lower_drop, lower_length.
Qed.

(** The canonical form is lowercased. *)
Lemma canon_email_lower x : Py.lower (canon_email x) = canon_email x.
Proof.
  unfold canon_email. destruct (_ && _).
  - by rewrite lower_slice, lower_idem.
  - apply lower_idem.
Qed.

(** Removing the brackets shortens an enclosed string. *)
Lemma slice_enclosed_shorter e :
  enclosed e = true -> (String.length (Py.slice e 1 (-1)) < String.length e)%nat.
Proof.
  unfold enclosed. destruct e as [|c e]; [done|]. intros _.
  unfold Py.slice. pose proof (take_length
    (Z.to_nat (Py.bound (String c e) (-1) - Py.bound (String c e) 1))
    (Py.drop (Z.to_nat (Py.bound (String c e) 1)) (String c e))) as H.
  unfold Py.bound, Py.len in *. cbn [String.length] in *.
  change (-1 <? 0) with true in *. change (1 <? 0) with false in *. cbv iota in *. lia.
Qed.

(** A lowercased string is left as it is exactly when it has no surrounding
    white space and is not enclosed in angle brackets. *)
Lemma canon_email_fixed y :
  Py.lower y = y ->
  canon_email y = y <-> Py.strip y = y /\ enclosed y = false.
Proof.
  intros Hlow. split.
  - intros H. unfold canon_email in H. rewrite str_or_empty in H.
    fold (enclosed (Py.lower (Py.strip y))) in H.
    destruct (enclosed (Py.lower (Py.strip y))) eqn:E.
    + apply slice_enclosed_shorter in E. rewrite H, lower_length in E.
      pose proof (strip_length y). lia.
    + assert (Hs : Py.strip y = y).
      { apply strip_same_length. rewrite <- (lower_length (Py.strip y)). by rewrite H. }
      split; [done|]. by rewrite Hs, Hlow in E.
  - intros [Hs He]. rewrite canon_email_open; rewrite Hs, Hlow; done.
Qed.

(** The canonical form of an enclosed string. *)
Lemma canon_email_enclosed x :
  enclosed (Py.lower (Py.strip x)) = true ->
  canon_email x = Py.slice (Py.lower (Py.strip x)) 1 (-1).
Proof. unfold canon_email, enclosed. rewrite str_or_empty. by intros ->. Qed.

(** X14: the exact condition: a second canonicalization changes nothing if and
    only if the canonical form has no surrounding white space and is not
    enclosed in angle brackets. *)
Lemma canon_email_idempotent_iff x :
  canon_email (canon_email x) = canon_email x <->
  Py.strip (canon_email x) = canon_email x /\ enclosed (canon_email x) = false.
Proof. apply canon_email_fixed, canon_email_lower. Qed.

(** C2, as the code has it: the exact condition on the input.  A second
    canonicalization changes nothing if and only if the string, trimmed and
    lowercased, is not enclosed in angle brackets, or is enclosed around a
    content that has no surrounding white space and is not itself enclosed
    in angle brackets. *)
Theorem canon_email_idempotent_exactly (x : string) :
  let e := Py.lower (Py.strip x) in
  let inner := Py.slice e 1 (-1) in
  canon_email (canon_email x) = canon_email x <->
  enclosed e = false \/ (Py.strip inner = inner /\ enclosed inner = false).
Proof.
  intros e inner. destruct (enclosed e) eqn:E.
  - rewrite (canon_email_enclosed x E). fold e. fold inner.
    rewrite canon_email_fixed.
    + split; [auto|]. by intros [|].
    + unfold inner, e. by rewrite lower_slice, lower_idem.
  - split; [auto|]. intros _. rewrite (canon_email_open x E). fold e.
    rewrite canon_email_open; unfold e; by rewrite strip_lower, strip_idem, lower_idem.
Qed.

Lemma canon_email_idempotent_exactly_witness :
  canon_email (canon_email "<Jane@Sub.Example.ORG>") = canon_email "<Jane@Sub.Example.ORG>" /\
  canon_email (canon_email "  Jane@Sub.Example.ORG ") = canon_email "  Jane@Sub.Example.ORG ".
Proof.
  split.
  - apply (proj2 (canon_email_idempotent_exactly "<Jane@Sub.Example.ORG>")).
    right. split; reflexivity.
  - apply (proj2 (canon_email_idempotent_exactly "  Jane@Sub.Example.ORG ")).
    left. reflexivity.
Defined.

(** C2, as stated, fails: only one layer of brackets is removed, and what
    was inside is not trimmed again. *)
Lemma canon_email_not_idempotent :
  canon_email (canon_email "<<a@b.co>>") <> canon_email "<<a@b.co>>" /\
  canon_email (canon_email "< a@b.co >") <> canon_email "< a@b.co >".
Proof. vm_compute. split; discriminate. Qed.

(** *** The empty canonical form *)

Lemma take_length_min n s : String.length (Py.take n s) = Nat.min n (String.length s).
Proof. revert s. induction n as [|n IH]; intros [|c s]; simpl; try done. by rewrite IH. Qed.

Lemma slice_inner_length e :
  String.length (Py.slice e 1 (-1)) = (String.length e - 2)%nat.
Proof.
  unfold Py.slice. rewrite take_length_min, drop_length. unfold Py.bound, Py.len.
  change (-1 <? 0) with true. change (1 <? 0) with false. cbv iota. lia.
Qed.

Lemma length_zero s : String.length s = 0%nat -> s = EmptyString.
Proof. by destruct s. Qed.

Lemma lower_empty s : Py.lower s = EmptyString -> s = EmptyString.
Proof. by destruct s. Qed.

Lemma lower_char_angle c :
  (Ascii.eqb (Py.lower_char c) "<" = Ascii.eqb c "<") /\
  (Ascii.eqb (Py.lower_char c) ">" = Ascii.eqb c ">").
Proof. each_char c; split; reflexivity. Qed.

Lemma lower_angles e : Py.lower e = "<>" -> e = "<>".
Proof.
  destruct e as [|a [|b [|c e]]]; simpl; try discriminate. intros [= Ha Hb].
  destruct (lower_char_angle a) as [Ea _]. destruct (lower_char_angle b) as [_ Eb].
  rewrite Ha in Ea. rewrite Hb in Eb. simpl in Ea, Eb.
  symmetry in Ea, Eb. apply Ascii.eqb_eq in Ea, Eb. by subst.
Qed.

Lemma enclosed_two e :
  enclosed e = true -> (String.length e <= 2)%nat -> e = "<>".
Proof.
  unfold enclosed. destruct e as [|a [|b [|c e]]]; simpl; try done; try lia.
  - destruct (Ascii.eqb_spec a "<") as [->|]; simpl; done.
  - destruct (Ascii.eqb_spec a "<") as [->|]; simpl; [|done].
    destruct (Ascii.eqb_spec b ">") as [->|]; simpl; done.
Qed.

(** An empty canonical form comes from white space or from a bare pair of
    angle brackets. *)
Lemma canon_email_empty x :
  canon_email x = EmptyString -> Py.strip x = EmptyString \/ Py.strip x = "<>".
Proof.
  unfold canon_email. rewrite str_or_empty. fold (enclosed (Py.lower (Py.strip x))).
  set (e := Py.strip x). destruct (enclosed (Py.lower e)) eqn:E.
  - intros H. apply (f_equal String.length) in H.
    rewrite slice_inner_length in H. simpl in H. right.
    apply lower_angles, enclosed_two; [done|lia].
  - intros H. left. by apply lower_empty.
Qed.

(** ** Leaving the loop *)

Lemma leave_loop_row now id w db j :
  jobs db !! id = Some j ->
  exists j', jobs (snd (leave_loop now (Some id) w db)) !! id = Some j' /\
             Job.status j' = Job.status j /\
             Job.processed_bytes j' = Job.processed_bytes j.
Proof.
  intros Hj. unfold leave_loop, _flush_emails.
  destruct (decide (emails_batch w = ∅)); simpl; [eauto|].
  rewrite lookup_alter_eq, Hj. simpl. eauto.
Qed.

Lemma stop_cancelled_row now w db j :
  jobs db !! job_id w = Some j ->
  exists j', jobs (snd (stop_cancelled now w db)) !! job_id w = Some j' /\
             Job.status j' = Job.status j /\
             Job.processed_bytes j' = Job.processed_bytes j.
Proof.
  intros Hj. unfold stop_cancelled. destruct (decide (emails_batch w = ∅)); [eauto|].
  by apply leave_loop_row.
Qed.

(** C4, as the code has it: a worker that finds, at the read of its record
    before a file (line 212), that the record is gone or that the cancelled
    flag is set, scans no further file and counts no further byte.  When
    the record is gone the tables are left as they are.  When the flag is
    set the batch built so far is still flushed: the count of each of its
    tokens grows by one, the status and the byte count of the record stay
    as they are, and the worker goes on to its last read of the record;
    with an empty batch there is nothing to flush, and the worker ends. *)
Theorem stop_flushes_the_batch (env : Env) (now : Q) (w : Worker) (db : DB)
    (cur : string * Z) (rest : list (string * Z)) :
  at_ w = Loop cur rest ->
  match db_get db (job_id w) with
  | None =>
      exists w', tick env now w db = (w', db) /\
                 (at_ w' = Finish \/ at_ w' = Exit) /\
                 processed_bytes w' = processed_bytes w
  | Some j =>
      Job.cancelled j = true ->
      exists db' j',
        tick env now w db
        = (goto (if decide (emails_batch w = ∅) then Exit else Finish)
             (locals (t0 w) (processed_bytes w) ∅ w), db') /\
        (forall t, seen db' t = seen db t + (if decide (t ∈ emails_batch w) then 1 else 0)) /\
        jobs db' !! job_id w = Some j' /\
        Job.status j' = Job.status j /\
        Job.processed_bytes j' = Job.processed_bytes j
  end.
Proof.
  intros Hat. destruct (db_get db (job_id w)) as [j|] eqn:Hj.
  - intros Hc.
    destruct (stop_cancelled_some now w db) as (db' & E & Em & _).
    destruct (stop_cancelled_row now w db j Hj) as (j' & Hj' & Hs & Hp).
    rewrite E in Hj'. exists db', j'.
    split; [|split; [intros t; by eapply seen_flushed|done]].
    rewrite <- E. unfold tick. by rewrite Hat, Hj, Hc.
  - unfold tick. rewrite Hat, Hj.
    rewrite leave_loop_none by done. eexists. split; [done|].
    split; [|done]. simpl. destruct (decide (emails_batch w = ∅)); auto.
Qed.

Lemma stop_flushes_the_batch_witness :
  exists db' j',
    tick env_two 4 worker_mid db_cancelled
    = (goto (if decide (emails_batch worker_mid = ∅) then Exit else Finish)
         (locals (t0 worker_mid) (processed_bytes worker_mid) ∅ worker_mid), db') /\
    (forall t, seen db' t
               = seen db_cancelled t + (if decide (t ∈ emails_batch worker_mid) then 1 else 0)) /\
    jobs db' !! 1 = Some j' /\
    Job.status j' = "cancelled" /\
    Job.processed_bytes j' = 0.
Proof.
  exact (stop_flushes_the_batch env_two 4 worker_mid db_cancelled ("/data/b.txt", 9) []
           eq_refl eq_refl).
Defined.

(** C4, as stated, fails: a job over two files is cancelled after its first
    file; at its next read the worker has one token in its batch and none in
    the registry, and after that move the token is in the registry. *)
Lemma cancelled_batch_is_flushed :
  let s := run env_two [Submit 0 (submit "/data"); Tick 0 1; Tick 0 2; Cancel 1] boot in
  let s' := fst (step env_two (Tick 0 3) s) in
  emails (db s) = ∅ /\
  emails_batch <$> threads s !! 0%nat = Some {[ "ann@a.org" ]} /\
  Job.cancelled <$> jobs (db s) !! 1 = Some true /\
  at_ <$> threads s' !! 0%nat = Some Finish /\
  seen (db s') "ann@a.org" = 1 /\
  "ann@a.org" ∈ dom (emails (db s')).
Proof.
  intros s s'. split_and!; vm_compute; reflexivity.
Qed.

(** ** Control commands *)





(** ** Scenario A *)

(** C6: one job over a directory with the one file of the scenario, from an
    empty registry, with the in-process matcher or with the external one:
    the matches are the two addresses as written, and the registry ends
    with the two canonical tokens, each with [seen_count = 1], and with no
    other row. *)
Theorem scenario_A (with_rg : bool) :
  let env := env_A with_rg in
  let s := run env [Submit 0 (submit "/data"); Tick 0 1; Tick 0 2; Tick 0 3] boot in
  scan_file env "/data/contacts.txt" = ["John.Doe@Example.COM"; "jane@sub.example.org"] /\
  Email.seen_count <$> emails (db s) !! "john.doe@example.com" = Some 1 /\
  Email.seen_count <$> emails (db s) !! "jane@sub.example.org" = Some 1 /\
  size (emails (db s)) = 2%nat.
Proof. destruct with_rg; split_and!; vm_compute; reflexivity. Qed.

(** ** Bytes walked *)

(** C7: a job that is neither paused, cancelled nor deleted, run to its end.
    The size of every enumerated file is counted, those of the files that the
    filter rejects as well, and the tokens that reach the registry are those
    of the files that pass the filter. *)
Theorem processed_bytes_counts_every_file (env : Env) (s : Sys) (n : nat) (id : Z)
    (path : string) (clocks : list Q) :
  threads s !! n = Some (spawn id path) ->
  undisturbed (db s) id ->
  length clocks = (length (iter_files (fs env) path) + 2)%nat ->
  let s' := run env (Tick n <$> clocks) s in
  at_ <$> threads s' !! n = Some Exit /\
  (exists j, jobs (db s') !! id = Some j /\ Job.status j = "done" /\
             Job.processed_bytes j = sum_sizes (iter_files (fs env) path)) /\
  dom (emails (db s')) = dom (emails (db s)) ∪ all_tokens env (iter_files (fs env) path).
Proof.
  intros Hw Hq Hlen s'. unfold s'. rewrite (run_ticks env n clocks s _ Hw).
  destruct (ticks_undisturbed env clocks (spawn id path) (db s) eq_refl eq_refl Hq Hlen)
    as (w' & db' & j' & -> & Hex & Hj' & Hs & Hp & D).
  simpl. split; [|eauto].
  rewrite list_lookup_insert_eq by by eapply lookup_lt_Some. simpl. by rewrite Hex.
Qed.

Lemma processed_bytes_counts_every_file_witness :
  let s := run env_C [Submit 0 (submit "/data")] boot in
  let s' := run env_C (Tick 0 <$> [1; 2; 3; 4]%Q) s in
  iter_files (fs env_C) "/data" = [("/data/logo.png", 2048); ("/data/note.txt", 17)] /\
  looks_like_text "/data/logo.png" = false /\
  (exists j, jobs (db s') !! 1 = Some j /\ Job.status j = "done" /\
             Job.processed_bytes j = 2048 + 17) /\
  dom (emails (db s')) = {[ "bob@site.org" ]}.
Proof.
  intros s s'. split; [reflexivity|]. split; [reflexivity|].
  assert (Hq : undisturbed (db s) 1).
  { eexists. split; [vm_compute; reflexivity|]. split; reflexivity. }
  destruct (processed_bytes_counts_every_file env_C s 0 1 "/data" [1; 2; 3; 4]%Q
              eq_refl Hq eq_refl) as (_ & Hj & D).
  split; [exact Hj|]. fold s' in D. rewrite D. vm_compute. reflexivity.
Defined.

(** ** Matches of the pattern *)

(** The canonical form has no upper-case letter, whatever the string. *)
Lemma canon_no_upper x : all_chars (fun c => negb (Py.isupper c)) (canon_email x) = true.
Proof. rewrite <- canon_email_lower. apply lower_no_upper. Qed.

Lemma tokens_no_upper env path t :
  t ∈ tokens env path -> all_chars (fun c => negb (Py.isupper c)) t = true.
Proof.
  unfold tokens. destruct (looks_like_text path); [|set_solver].
  rewrite elem_of_list_to_set, list_elem_of_fmap. intros (e & -> & _).
  apply canon_no_upper.
Qed.

Lemma tokens_nonempty env path t :
  rg_no_bare_brackets env -> t ∈ tokens env path -> t <> EmptyString.
Proof.
  intros Hrg. unfold tokens. destruct (looks_like_text path); [|set_solver].
  rewrite elem_of_list_to_set, list_elem_of_fmap. intros (e & -> & He).
  apply list_elem_of_In, scan_file_cases in He
    as [(lines & line & Hl & Hin & -> & Hne)|[_ He]].
  - intros [H|H]%canon_email_empty; rewrite strip_idem in H; [done|].
    by apply (Hrg path lines line).
  - by apply canon_email_match in He as (_ & _ & _ & He).
Qed.

Lemma rg_no_bare_brackets_A with_rg : rg_no_bare_brackets (env_A with_rg).
Proof.
  intros path lines line. unfold env_A. simpl. destruct with_rg; [|done].
  intros [= <-]. destruct (String.eqb path "/data/contacts.txt"); [|done].
  intros [<-|[<-|[]]]; vm_compute; discriminate.
Qed.

(** C8: on a match of the pattern neither the trimming nor the bracket
    branch of the canonicalizer applies, and its canonical form is its
    lowercased form, which is not empty.  Whatever was submitted, scanned
    and commanded, and whatever the external matcher printed, no token of
    the registry has an upper-case letter; and none is empty, unless the
    external matcher prints a line that is a bare pair of angle brackets. *)
Theorem matches_are_only_lowercased :
  (forall s, re_lang EMAIL_RE s ->
     Py.strip s = s /\ enclosed (Py.lower s) = false /\
     canon_email s = Py.lower s /\ lowercase_token (canon_email s)) /\
  (forall env evs t,
     t ∈ dom (emails (db (run env evs boot))) ->
     all_chars (fun c => negb (Py.isupper c)) t = true /\
     (rg_no_bare_brackets env -> lowercase_token t)).
Proof.
  split.
  - intros s Hs. destruct (canon_email_match s Hs) as (H1 & H2 & H3 & _).
    split_and!; try done. by apply canon_match_lowercase.
  - intros env evs t Ht.
    assert (Hup : all_chars (fun c => negb (Py.isupper c)) t = true).
    { by apply (reach_tokens_ok env _ (tokens_no_upper env) evs). }
    split; [done|]. intros Hrg. split; [|done].
    by apply (reach_tokens_ok env _ (fun path t => tokens_nonempty env path t Hrg) evs).
Qed.

Lemma matches_are_only_lowercased_witness :
  (Py.strip "John.Doe@Example.COM" = "John.Doe@Example.COM" /\
   enclosed (Py.lower "John.Doe@Example.COM") = false /\
   canon_email "John.Doe@Example.COM" = Py.lower "John.Doe@Example.COM" /\
   lowercase_token (canon_email "John.Doe@Example.COM")) /\
  (forall t,
     t ∈ dom (emails (db (run (env_A true)
                            [Submit 0 (submit "/data"); Tick 0 1; Tick 0 2; Tick 0 3] boot))) ->
     lowercase_token t).
Proof.
  split.
  - apply (proj1 matches_are_only_lowercased "John.Doe@Example.COM").
    exact (match_here_sound EMAIL_RE "John.Doe@Example.COM" 20 eq_refl).
  - intros t Ht.
    apply (proj2 matches_are_only_lowercased (env_A true) _ t Ht).
    apply rg_no_bare_brackets_A.
Defined.

(** ** The empty batch *)

(** C9: a flush of the empty batch returns with the tables as they were: no
    registry row and no field of a job record is written, whichever job the
    flush is for. *)
Theorem flush_of_empty_batch (now : Q) (job : option Z) (db : DB) :
  _flush_emails now job ∅ db = Return tt db.
Proof. unfold _flush_emails. by rewrite decide_True. Qed.

(** ** The workers hint *)

(** C10, as the code has it: a submission is accepted or rejected
    whatever its workers hint is; the record of an accepted job stores the
    hint clamped to 1..64, and 8 when the hint is 0. *)
Theorem workers_is_clamped (env : Env) (now : Q) (f : Form) (db : DB) :
  match create_job env now f db with
  | (db', Created id _ _ _, _) =>
      Job.workers <$> jobs db' !! id
      = Some (if form_workers f =? 0 then 8 else Z.max 1 (Z.min (form_workers f) 64))
  | (db', HTTPException code detail, thread) =>
      forall w, create_job env now (with_workers w f) db
                = (db', HTTPException code detail, thread)
  | (_, OkTrue, _) => False
  end.
Proof.
  unfold create_job. simpl. set (path := Py.str_or _ _).
  destruct (String.eqb path _); [done|].
  destruct (negb (isabs path)); [done|].
  destruct (negb (exists_ (fs env) path)); [done|].
  destruct (iter_files (fs env) path) as [|f0 files]; [done|].
  cbv zeta. cbn [Job.total_bytes Job.chunk_mb new_job form_chunk_mb with_workers].
  destruct (int64 _ && int64 _); [|done].
  cbn [jobs with_jobs]. rewrite lookup_insert_eq. simpl. f_equal.
  unfold Py.int_or. destruct (form_workers f =? 0); [reflexivity|done].
Qed.

(** C10, as stated, fails: a hint of 0 is stored as 8, not as
    [max(1, min(0, 64)) = 1]. *)
Lemma workers_zero_is_eight :
  let f := with_workers 0 (submit "/data") in
  let db' := fst (fst (create_job (env_A false) 0 f empty_db)) in
  form_workers f = 0 /\
  Job.workers <$> jobs db' !! 1 = Some 8 /\
  Job.workers <$> jobs db' !! 1 <> Some (Z.max 1 (Z.min (form_workers f) 64)).
Proof. vm_compute. split_and!; [reflexivity|reflexivity|discriminate]. Qed.

(** ** Further facts about the commands and the worker *)

Lemma resume_sets_running id db j :
  db_get db id = Some j ->
  Job.status <$> db_get (fst (resume_job id db)) id = Some "running".
Proof. unfold db_get. simpl. intros Hj. by rewrite lookup_alter_eq, Hj. Qed.

Lemma cancel_sets_cancelled id db j :
  db_get db id = Some j ->
  Job.status <$> db_get (fst (cancel_job id db)) id = Some "cancelled" /\
  Job.cancelled <$> db_get (fst (cancel_job id db)) id = Some true.
Proof. unfold db_get. simpl. intros Hj. by rewrite !lookup_alter_eq, Hj. Qed.

(** A job that is cancelled before its thread starts: the thread sets the
    status to running, leaves the loop at its first read, and the status
    stays running. *)
Example start_overwrites_cancelled :
  let s := run env_two [Submit 0 (submit "/data"); Cancel 1; Tick 0 1; Tick 0 2; Tick 0 3] boot in
  at_ <$> threads s !! 0%nat = Some Exit /\
  Job.status <$> jobs (db s) !! 1 = Some "running" /\
  Job.cancelled <$> jobs (db s) !! 1 = Some true.
Proof. vm_compute. split_and!; reflexivity. Qed.

(** A job that is deleted after its first file: the batch is dropped with
    the session of the worker. *)
Example deleted_record_drops_batch :
  let s := run env_two [Submit 0 (submit "/data"); Tick 0 1; Tick 0 2; Delete 1; Tick 0 3] boot in
  at_ <$> threads s !! 0%nat = Some Exit /\ size (emails (db s)) = 0%nat.
Proof. vm_compute. split; reflexivity. Qed.

(** A job that is paused before its first file and resumed: the worker
    has gone to sleep on the record as it read it, and the resume, which
    sets the status to running, does not reach it. *)
Example pause_then_resume :
  let s1 := run env_two [Submit 0 (submit "/data"); Tick 0 1; Pause 1; Tick 0 2; Tick 0 3] boot in
  let s2 := run env_two [Resume 1; Tick 0 4; Tick 0 5; Tick 0 6] s1 in
  at_ <$> threads s1 !! 0%nat = Some (Sleep ("/data/a.txt", 9) [("/data/b.txt", 9)]) /\
  Job.processed_bytes <$> jobs (db s1) !! 1 = Some 0 /\
  at_ <$> threads s2 !! 0%nat = Some (Sleep ("/data/a.txt", 9) [("/data/b.txt", 9)]) /\
  Job.status <$> jobs (db s2) !! 1 = Some "running" /\
  Job.paused <$> jobs (db s2) !! 1 = Some false /\
  Job.processed_bytes <$> jobs (db s2) !! 1 = Some 0 /\
  size (emails (db s2)) = 0%nat.
Proof. vm_compute. split_and!; reflexivity. Qed.

(** A store that fails under a worker whose job is cancelled: the handler
    writes failed over cancelled. *)
Example handler_overwrites_cancelled :
  let s := run env_two [Submit 0 (submit "/data"); Tick 0 1; Cancel 1] boot in
  let s' := fst (step env_two (Crash 0) s) in
  status_of s 1 = Some "cancelled" /\
  status_of s' 1 = Some "failed" /\ at_ <$> threads s' !! 0%nat = Some Exit.
Proof. vm_compute. split_and!; reflexivity. Qed.

(** A job is deleted while its worker is before its last file, and the
    next submission is given the same key: the old worker goes on under the
    new row, and when the new worker has failed, the completion of the old
    one writes done over failed. *)
Example completion_overwrites_failed :
  let s := run env_two [Submit 0 (submit "/data"); Tick 0 1; Tick 0 2; Delete 1;
                        Submit 3 (submit "/data"); Crash 1; Tick 0 4] boot in
  let s' := fst (step env_two (Tick 0 5) s) in
  at_ <$> threads s !! 0%nat = Some Finish /\
  status_of s 1 = Some "failed" /\ status_of s' 1 = Some "done".
Proof. vm_compute. split_and!; reflexivity. Qed.

(** Scenario B: the same file in two jobs. *)
Example scenario_B :
  let s := run (env_A false)
             [Submit 0 (submit "/data"); Tick 0 1; Tick 0 2; Tick 0 3;
              Submit 4 (submit "/data"); Tick 1 5; Tick 1 6; Tick 1 7] boot in
  seen (db s) "john.doe@example.com" = 2 /\ seen (db s) "jane@sub.example.org" = 2 /\
  Job.emails_found <$> jobs (db s) !! 2 = Some 2.
Proof. vm_compute. split_and!; reflexivity. Qed.

(** Paths as [os.path.exists] sees them. *)
Example exists_cases :
  exists_ tree_A "/data/../data" = true /\ exists_ tree_A "/data/./contacts.txt" = true /\
  exists_ tree_A "/../data//contacts.txt" = true /\ exists_ tree_A "/data/" = true /\
  exists_ tree_A "/data/contacts.txt/" = false /\
  exists_ tree_A "/data/contacts.txt/.." = false /\ exists_ tree_A "/data/none/.." = false.
Proof. split_and!; reflexivity. Qed.

(** A submission under a path with a step back, and one whose chunk size
    the store cannot hold. *)
Example create_job_cases :
  snd (fst (create_job (env_A false) 0 (submit "/data/../data") empty_db))
  = Created 1 "scan" "queued" 56 /\
  create_job (env_A false) 0 (oversized "/data") empty_db
  = (empty_db, HTTPException 500 "Internal Server Error", None).
Proof. split; reflexivity. Qed.

Example finditer_text_A :
  finditer EMAIL_RE text_A = ["John.Doe@Example.COM"; "jane@sub.example.org"].
Proof. reflexivity. Qed.

Example finditer_backtracks :
  finditer EMAIL_RE "x@a.bb.c1 y@host.tld. z@a.b.c1" = ["x@a.bb"; "y@host.tld"].
Proof. reflexivity. Qed.

Example looks_like_text_cases :
  looks_like_text "/data/logo.PNG" = false /\ looks_like_text "/data/.png" = true /\
  looks_like_text "/data.png/notes" = true /\ looks_like_text "/data/a.tar.gz" = true.
Proof. split_and!; reflexivity. Qed.

Example canon_email_cases :
  canon_email "  <Jane@Sub.Example.ORG> " = "jane@sub.example.org" /\
  canon_email "<" = "<" /\ canon_email "<>" = "" /\ canon_email "" = "".
Proof. split_and!; reflexivity. Qed.

(** * Further properties of the code *)

(** ** Submission *)

(** X1: a rejected submission writes nothing and starts no thread.  It is
    answered with 400 exactly for an empty, relative or missing path or a
    path under which no file is enumerated, and with 500 exactly when the
    path passes these checks and the insert of the row raises: the byte
    total or the chunk size is no signed 64-bit integer. *)
Theorem create_job_rejects (env : Env) (now : Q) (f : Form) (db db' : DB)
    (code : Z) (detail : string) (th : option (Z * string)) :
  create_job env now f db = (db', HTTPException code detail, th) ->
  db' = db /\ th = None /\
  let path := default EmptyString (form_server_path f) in
  let refused :=
    path = EmptyString \/ isabs path = false \/ exists_ (fs env) path = false \/
    iter_files (fs env) path = [] in
  let fits :=
    int64 (sum_sizes (iter_files (fs env) path))
    && int64 (Py.int_or (form_chunk_mb f) 512) in
  (code = 400 /\ refused) \/ (code = 500 /\ ~ refused /\ fits = false).
Proof.
  unfold create_job. rewrite str_or_empty. cbv zeta.
  destruct (String.eqb_spec (default EmptyString (form_server_path f)) EmptyString) as [E|E].
  { intros [= <- <- _ <-]. split_and!; [done|done|]. left. auto. }
  destruct (isabs _) eqn:Ea; cbn [negb].
  2:{ intros [= <- <- _ <-]. split_and!; [done|done|]. left. auto. }
  destruct (exists_ (fs env) _) eqn:Ee; cbn [negb].
  2:{ intros [= <- <- _ <-]. split_and!; [done|done|]. left. auto. }
  destruct (iter_files (fs env) _) as [|f0 files] eqn:Ef.
  { intros [= <- <- _ <-]. split_and!; [done|done|]. left. auto 6. }
  cbn [Job.total_bytes Job.chunk_mb new_job].
  destruct (int64 _ && int64 _) eqn:Efit; [intros [=]|].
  intros [= <- <- _ <-]. split_and!; [done|done|]. right. split_and!; [done| |done].
  intros [H|[H|[H|H]]]; congruence.
Qed.

Lemma create_job_rejects_witness :
  (create_job (env_A false) 0 (submit "data") empty_db
   = (empty_db, HTTPException 400 "Path must be absolute", None) /\
   isabs "data" = false) /\
  (create_job (env_A false) 0 (oversized "/data") empty_db
   = (empty_db, HTTPException 500 "Internal Server Error", None) /\
   int64 (form_chunk_mb (oversized "/data")) = false).
Proof.
  split; (split; [reflexivity|]).
  - destruct (create_job_rejects (env_A false) 0 (submit "data") empty_db empty_db 400
                "Path must be absolute" None eq_refl)
      as (_ & _ & [[_ [H|[H|[H|H]]]]|[H _]]);
      [discriminate H|exact H|discriminate H|discriminate H|discriminate H].
  - destruct (create_job_rejects (env_A false) 0 (oversized "/data") empty_db empty_db 500
                "Internal Server Error" None eq_refl)
      as (_ & _ & [[H _]|(_ & _ & H)]); [discriminate H|].
    apply andb_false_iff in H as [H|H]; [discriminate H|exact H].
Defined.

(** X2: an accepted submission adds one row under a key larger than every key
    in use, leaves the other rows and the registry alone, and starts one
    thread for the new key.  The row is queued, with zero counters, no flag
    set, and the sum of the enumerated sizes as its total. *)
Theorem create_job_accepts (env : Env) (now : Q) (f : Form) (db db' : DB)
    (id : Z) (name status : string) (total : Z) (th : option (Z * string)) :
  create_job env now f db = (db', Created id name status total, th) ->
  let path := default EmptyString (form_server_path f) in
  th = Some (id, path) /\ isabs path = true /\ exists_ (fs env) path = true /\
  total = sum_sizes (iter_files (fs env) path) /\ iter_files (fs env) path <> [] /\
  emails db' = emails db /\
  (forall k j, jobs db !! k = Some j -> k < id /\ jobs db' !! k = Some j) /\
  exists j, jobs db' !! id = Some j /\ Job.id j = id /\ Job.name j = name /\
            Job.status j = "queued" /\ status = "queued" /\
            Job.processed_bytes j = 0 /\ Job.total_bytes j = total /\
            Job.emails_found j = 0 /\ Job.eta_seconds j = None /\
            Job.paused j = false /\ Job.cancelled j = false.
Proof.
  unfold create_job. rewrite str_or_empty.
  set (path := default EmptyString (form_server_path f)).
  destruct (String.eqb_spec path EmptyString) as [E|_]; [done|].
  destruct (isabs path) eqn:Ea; cbn [negb]; [|done].
  destruct (exists_ (fs env) path) eqn:Ee; cbn [negb]; [|done].
  destruct (iter_files (fs env) path) as [|f0 files] eqn:Ef; [done|].
  cbv zeta. destruct (int64 _ && int64 _); [|done].
  intros [= <- <- <- <- <- <-]. cbn [Job.id new_job]. split_and!; try done.
  - intros k j Hk. pose proof (fresh_id_bound _ _ _ Hk). split; [done|].
    cbn [jobs with_jobs]. rewrite lookup_insert_ne by lia. done.
  - eexists. cbn [jobs with_jobs]. rewrite lookup_insert_eq. split_and!; done.
Qed.

Lemma create_job_accepts_witness :
  create_job (env_A false) 0 (submit "/data") empty_db
  = (with_jobs (insert 1 (new_job 0 (submit "/data") 1 56)) empty_db,
     Created 1 "scan" "queued" 56, Some (1, "/data")) /\
  exists j, jobs (with_jobs (insert 1 (new_job 0 (submit "/data") 1 56)) empty_db) !! 1 = Some j /\
            Job.status j = "queued" /\ Job.total_bytes j = 56.
Proof.
  split; [reflexivity|].
  destruct (create_job_accepts (env_A false) 0 (submit "/data") empty_db
              _ 1 "scan" "queued" 56 _ eq_refl)
    as (_ & _ & _ & _ & _ & _ & _ & j & Hj & _ & _ & Hs & _ & _ & Ht & _).
  exists j. split_and!; assumption.
Defined.

(** ** Control commands *)



(** What each command does to the row it names: pause and resume toggle
    [paused], resume also sets the status to running and leaves [cancelled]
    as it is, cancel sets [cancelled] and the status and leaves [paused],
    delete removes the row. *)
Theorem command_effect (id : Z) (db : DB) (j : Job.t) :
  db_get db id = Some j ->
  db_get (fst (pause_job id db)) id = Some (Job.set_paused true j) /\
  db_get (fst (resume_job id db)) id
  = Some (Job.set_status "running" (Job.set_paused false j)) /\
  Job.cancelled (Job.set_status "running" (Job.set_paused false j)) = Job.cancelled j /\
  db_get (fst (cancel_job id db)) id
  = Some (Job.set_status "cancelled" (Job.set_cancelled true j)) /\
  Job.paused (Job.set_status "cancelled" (Job.set_cancelled true j)) = Job.paused j /\
  db_get (fst (delete_job id db)) id = None.
Proof.
  unfold db_get. simpl. intros Hj.
  rewrite !lookup_alter_eq, Hj, lookup_delete_eq. done.
Qed.

Lemma command_effect_witness :
  db_get (fst (resume_job 1 db_cancelled)) 1
  = Some (Job.set_status "running"
            (Job.set_paused false
               (Job.set_cancelled true
                  (Job.set_status "cancelled" (new_job 0 (submit "/data") 1 18))))).
Proof.
  exact (proj1 (proj2 (command_effect 1 db_cancelled _ eq_refl))).
Defined.

(** ** Flags *)

Lemma step_keeps_cancelled env ev s id j :
  jobs (db s) !! id = Some j -> Job.cancelled j = true -> ev <> Delete id ->
  exists j', jobs (db (fst (step env ev s))) !! id = Some j' /\ Job.cancelled j' = true.
Proof.
  intros Hj Hc Hev. destruct ev as [now f|k|k|k|k|n now|n].
  - assert (E : db (fst (step env (Submit now f) s)) = fst (fst (create_job env now f (db s)))).
    { simpl. by destruct (create_job env now f (db s)) as [[db' r] [[i path]|]]. }
    rewrite E. destruct (create_job_jobs env now f (db s)) as [_ [->|(j0 & _ & _ & Hfree & ->)]];
      [eauto|].
    exists j. rewrite lookup_insert_ne; [done|]. intros Heq. rewrite Heq in Hfree. congruence.
  - simpl. destruct (decide (k = id)) as [->|].
    + rewrite lookup_alter_eq, Hj. simpl. eauto.
    + rewrite lookup_alter_ne by done. eauto.
  - simpl. destruct (decide (k = id)) as [->|].
    + rewrite lookup_alter_eq, Hj. simpl. eauto.
    + rewrite lookup_alter_ne by done. eauto.
  - simpl. destruct (decide (k = id)) as [->|].
    + rewrite lookup_alter_eq, Hj. simpl. eauto.
    + rewrite lookup_alter_ne by done. eauto.
  - simpl. rewrite lookup_delete_ne by congruence. eauto.
  - destruct (threads s !! n) as [w|] eqn:Hw; [|rewrite step_tick_none by done; eauto].
    rewrite (step_tick _ _ _ _ _ Hw).
    destruct (tick_spec env now w (db s)) as (w' & db' & E & _ & (f & Hf & Ej) & _).
    rewrite E. simpl. rewrite Ej. destruct (decide (job_id w = id)) as [Hid|].
    + rewrite Hid, lookup_alter_eq, Hj. simpl. eexists. split; [done|].
      destruct (Hf j) as (-> & _). done.
    + rewrite lookup_alter_ne by done. eauto.
  - destruct (threads s !! n) as [w|] eqn:Hw; [|rewrite step_crash_none by done; eauto].
    rewrite (step_crash _ _ _ _ Hw). cbn [db].
    destruct (crash_spec w (db s)) as [[_ ->]|[(_ & _ & ->)|(_ & _ & ->)]];
      cbn [snd]; eauto.
    unfold update_job, with_jobs. cbn [jobs]. destruct (decide (job_id w = id)) as [Hid|].
    + rewrite Hid, lookup_alter_eq, Hj. simpl. eauto.
    + rewrite lookup_alter_ne by done. eauto.
Qed.

(** X4: the cancelled flag is monotonic: once it is set on a job, no submission,
    command or move of any worker resets it; it goes only with the record,
    on a delete of that job. *)
Theorem cancelled_is_monotonic (env : Env) (evs : list event) (s : Sys) (id : Z) (j : Job.t) :
  jobs (db s) !! id = Some j -> Job.cancelled j = true -> Delete id ∉ evs ->
  exists j', jobs (db (run env evs s)) !! id = Some j' /\ Job.cancelled j' = true.
Proof.
  revert s j. induction evs as [|ev evs IH]; intros s j Hj Hc Hev; [by exists j|].
  apply not_elem_of_cons in Hev as [Hne Hev].
  destruct (step_keeps_cancelled env ev s id j Hj Hc) as (j1 & Hj1 & Hc1); [congruence|].
  exact (IH _ j1 Hj1 Hc1 Hev).
Qed.

Lemma cancelled_is_monotonic_witness :
  exists j', jobs (db (run env_two [Resume 1; Pause 1; Tick 0 5; Resume 1]
                         {| db := db_cancelled; threads := [worker_mid] |})) !! 1 = Some j' /\
             Job.cancelled j' = true.
Proof.
  apply (cancelled_is_monotonic env_two [Resume 1; Pause 1; Tick 0 5; Resume 1]
           {| db := db_cancelled; threads := [worker_mid] |} 1
           (Job.set_cancelled true (Job.set_status "cancelled" (new_job 0 (submit "/data") 1 18))));
    [reflexivity|reflexivity|].
  intros H. repeat (apply elem_of_cons in H as [H|H]; [discriminate H|]).
  by apply elem_of_nil in H.
Defined.

(** ** Pause *)

Lemma goto_same p w : at_ w = p -> goto p w = w.
Proof. intros <-. by destruct w. Qed.

(** X5: a worker that finds its job paused and not cancelled before a file goes
    to sleep, or stays asleep: it scans nothing, counts nothing and writes
    nothing, however often it looks. *)
Theorem paused_worker_waits (env : Env) (clocks : list Q) (w : Worker) (db : DB)
    (cur : string * Z) (rest : list (string * Z)) (j : Job.t) :
  at_ w = Loop cur rest \/ at_ w = Sleep cur rest ->
  db_get db (job_id w) = Some j -> Job.cancelled j = false -> Job.paused j = true ->
  clocks <> [] ->
  ticks env clocks w db = (goto (Sleep cur rest) w, db).
Proof.
  intros Hat Hj Hc Hp Hne.
  assert (Hall : forall clocks w0, job_id w0 = job_id w ->
            at_ w0 = Loop cur rest \/ at_ w0 = Sleep cur rest -> clocks <> [] ->
            ticks env clocks w0 db = (goto (Sleep cur rest) w0, db)).
  { clear clocks Hne. induction clocks as [|now clocks IH]; intros w0 Hid Hat0 Hne; [done|].
    cbn [ticks].
    assert (E : tick env now w0 db = (goto (Sleep cur rest) w0, db)).
    { destruct Hat0 as [H|H]; unfold tick; rewrite H; [by rewrite Hid, Hj, Hc, Hp|].
      by rewrite goto_same. }
    rewrite E. destruct clocks as [|now' clocks']; [done|].
    rewrite IH; [|done|by right|done]. f_equal. }
  by apply Hall.
Qed.

Lemma paused_worker_waits_witness :
  ticks env_two [5; 6; 7]%Q worker_mid
    (fst (pause_job 1 (fst (fst (create_job env_two 0 (submit "/data") empty_db)))))
  = (goto (Sleep ("/data/b.txt", 9) []) worker_mid,
     fst (pause_job 1 (fst (fst (create_job env_two 0 (submit "/data") empty_db))))).
Proof.
  eapply (paused_worker_waits env_two [5; 6; 7]%Q worker_mid _ ("/data/b.txt", 9) []);
    [left; reflexivity|reflexivity|reflexivity|reflexivity|discriminate].
Defined.

(** ** A record that is gone *)

Lemma tick_gone env now w db :
  db_get db (job_id w) = None -> (forall cur rest, at_ w <> Sleep cur rest) ->
  exists w', tick env now w db = (w', db) /\ job_id w' = job_id w /\
             processed_bytes w' = processed_bytes w /\
             (at_ w' = Finish \/ at_ w' = Exit) /\
             (at_ w = Finish \/ at_ w = Exit -> at_ w' = Exit).
Proof.
  intros Hj Hawake. unfold tick.
  destruct (at_ w) as [|cur rest|cur rest| |] eqn:Hat; rewrite ?Hj.
  - eexists. split; [done|]. simpl. split_and!; auto.
  - rewrite leave_loop_none by done. eexists. split; [done|]. simpl.
    split_and!; auto; [destruct (decide _); auto|]. intros [|]; done.
  - by destruct (Hawake cur rest).
  - eexists. split; [done|]. simpl. split_and!; auto.
  - eexists. split; [done|]. split_and!; auto.
Qed.

(** A thread that is asleep stays asleep, whatever the tables hold. *)
Lemma ticks_asleep env clocks w db cur rest :
  at_ w = Sleep cur rest -> ticks env clocks w db = (w, db).
Proof.
  intros Hat. induction clocks as [|now clocks IH]; [done|].
  cbn [ticks]. unfold tick. by rewrite Hat.
Qed.

(** X6: a worker whose record is gone stops within two reads of it and writes
    nothing: no job row, no registry row, whatever its batch holds.  This
    holds from every position but the pause loop: a worker that is asleep
    there reads no row, so that it neither stops nor writes, however often
    it polls. *)
Theorem deleted_job_stops (env : Env) (c1 c2 : Q) (w : Worker) (db : DB) :
  db_get db (job_id w) = None ->
  ((forall cur rest, at_ w <> Sleep cur rest) ->
   exists w', ticks env [c1; c2] w db = (w', db) /\ at_ w' = Exit /\
              processed_bytes w' = processed_bytes w) /\
  (forall cur rest clocks, at_ w = Sleep cur rest -> ticks env clocks w db = (w, db)).
Proof.
  intros Hj. split; [|intros cur rest clocks; apply ticks_asleep].
  intros Hawake. cbn [ticks].
  destruct (tick_gone env c1 w db Hj Hawake) as (w1 & -> & Hid & Hp & Hat & _).
  rewrite <- Hid in Hj.
  destruct (tick_gone env c2 w1 db Hj) as (w2 & -> & _ & Hp2 & _ & Hex).
  { intros cur rest E. destruct Hat as [H|H]; rewrite H in E; discriminate E. }
  exists w2. split; [done|]. split; [by apply Hex|congruence].
Qed.

Lemma deleted_job_stops_witness :
  (exists w', ticks env_two [5; 6]%Q worker_mid empty_db = (w', empty_db) /\ at_ w' = Exit /\
              processed_bytes w' = processed_bytes worker_mid) /\
  ticks env_two [5; 6; 7]%Q (goto (Sleep ("/data/b.txt", 9) []) worker_mid) empty_db
  = (goto (Sleep ("/data/b.txt", 9) []) worker_mid, empty_db).
Proof.
  split.
  - apply (deleted_job_stops env_two 5 6 worker_mid empty_db eq_refl). discriminate.
  - apply (proj2 (deleted_job_stops env_two 5 6
                    (goto (Sleep ("/data/b.txt", 9) []) worker_mid) empty_db eq_refl)
             ("/data/b.txt", 9) []).
    reflexivity.
Defined.

(** ** What a worker may write *)

(** X7: a move of a worker neither adds nor removes a job row, leaves the rows
    of the other jobs as they are, and leaves both control flags of its own
    row as they are. *)
Theorem worker_writes_own_row (env : Env) (now : Q) (w : Worker) (db : DB) :
  let db' := snd (tick env now w db) in
  dom (jobs db') = dom (jobs db) /\
  (forall k, k <> job_id w -> jobs db' !! k = jobs db !! k) /\
  (forall j, jobs db !! job_id w = Some j ->
     exists j', jobs db' !! job_id w = Some j' /\
                Job.paused j' = Job.paused j /\ Job.cancelled j' = Job.cancelled j).
Proof.
  destruct (tick_spec env now w db) as (w' & db' & E & _ & (f & Hf & Ej) & _).
  rewrite E. cbn [snd]. rewrite Ej. split_and!.
  - apply dom_alter_L.
  - intros k Hk. by rewrite lookup_alter_ne.
  - intros j Hj. exists (f j). rewrite lookup_alter_eq, Hj. split; [done|].
    destruct (Hf j) as (-> & -> & _). done.
Qed.

(** ** The registry under any event *)

Section Registry.

Variable Rm : gmap string Email.t -> gmap string Email.t -> Prop.
Hypothesis Rm_refl : forall m, Rm m m.
Hypothesis Rm_trans : forall a b c, Rm a b -> Rm b c -> Rm a c.
Hypothesis Rm_flush :
  forall now (batch : gset string) m, Rm m (upsert_all now (elements batch) m).

Let R (db db' : DB) : Prop := Rm (emails db) (emails db').

Lemma within_bind {A B} (m : M A) (k : A -> M B) db :
  within R db (m db) -> (forall a db', within R db' (k a db')) ->
  within R db (bind m k db).
Proof.
  unfold bind. destruct (m db) as [a db1|c p]; [|done]. simpl. intros H1 Hk.
  specialize (Hk a db1). destruct (k a db1) as [b db2|c p]; simpl in *.
  - by eapply Rm_trans.
  - destruct Hk. split; by eapply Rm_trans.
Qed.

Lemma flush_within now job batch db : within R db (_flush_emails now job batch db).
Proof.
  unfold _flush_emails. destruct (decide (batch = ∅)); [apply Rm_refl|].
  destruct job; simpl; [apply Rm_flush|]. split; [apply Rm_refl|apply Rm_flush].
Qed.

Lemma update_metrics_within now job p t db : within R db (_update_metrics now job p t db).
Proof. unfold _update_metrics. destruct job; simpl; [|split]; apply Rm_refl. Qed.

Lemma ret_within {A} (a : A) db : within R db (ret a db).
Proof. apply Rm_refl. Qed.

Lemma add_email_within now job batch email db :
  within R db (add_email now job batch email db).
Proof.
  unfold add_email. destruct (batch_size <=? _); [|apply ret_within].
  apply within_bind; [apply flush_within|]. intros. apply ret_within.
Qed.

Lemma scan_loop_within now job found : forall batch db,
  within R db (scan_loop now job batch found db).
Proof.
  induction found as [|email found IH]; intros batch db; cbn [scan_loop].
  - apply ret_within.
  - apply within_bind; [apply add_email_within|]. intros. apply IH.
Qed.

Lemma scan_one_within env now job w cur db : within R db (scan_one env now job w cur db).
Proof.
  unfold scan_one. destruct cur as [path fsize]. destruct (negb _).
  - apply within_bind; [apply update_metrics_within|]. intros. apply ret_within.
  - apply within_bind; [apply scan_loop_within|]. intros.
    apply within_bind; [apply update_metrics_within|]. intros. apply ret_within.
Qed.

Lemma on_exception_registry w db c p : R db c -> R db p -> R db (snd (on_exception w c p)).
Proof. unfold on_exception. intros Hc Hp. by destruct (db_get p (job_id w)). Qed.

Lemma leave_loop_registry now job w db : R db (snd (leave_loop now job w db)).
Proof.
  unfold leave_loop. destruct (decide _); [apply Rm_refl|].
  pose proof (flush_within now job (emails_batch w) db) as H.
  destruct (_flush_emails now job (emails_batch w) db); simpl in H; [done|].
  destruct H. by apply on_exception_registry.
Qed.

Lemma next_file_registry now job w rest db : R db (snd (next_file now job w rest db)).
Proof. unfold next_file. destruct rest; [apply leave_loop_registry|apply Rm_refl]. Qed.

Lemma process_file_registry env now job w cur rest db :
  R db (snd (process_file env now job w cur rest db)).
Proof.
  unfold process_file. pose proof (scan_one_within env now job w cur db) as H.
  destruct (scan_one env now job w cur db) as [[b p] db1|c p]; simpl in H.
  - eapply Rm_trans; [exact H|]. apply next_file_registry.
  - destruct H. by apply on_exception_registry.
Qed.

Lemma tick_registry env now w db : R db (snd (tick env now w db)).
Proof.
  unfold tick. destruct (at_ w) as [|cur rest|cur rest| |];
    destruct (db_get db (job_id w)) as [j|]; try apply Rm_refl.
  - eapply Rm_trans; [|apply next_file_registry]. apply Rm_refl.
  - destruct (Job.cancelled j).
    { unfold stop_cancelled. destruct (decide _); [apply Rm_refl|apply leave_loop_registry]. }
    destruct (Job.paused j); [apply Rm_refl|apply process_file_registry].
  - apply leave_loop_registry.
  - destruct (negb _); apply Rm_refl.
Qed.

Lemma step_registry env ev s : Rm (emails (db s)) (emails (db (fst (step env ev s)))).
Proof.
  destruct ev as [now f|k|k|k|k|n now|n]; try apply Rm_refl.
  - pose proof (create_job_jobs env now f (db s)) as [Em _]. simpl.
    destruct (create_job env now f (db s)) as [[db' r] [[i path]|]]; simpl in *;
      rewrite Em; apply Rm_refl.
  - destruct (threads s !! n) as [w|] eqn:Hw; [|rewrite step_tick_none by done; apply Rm_refl].
    rewrite (step_tick _ _ _ _ _ Hw). apply tick_registry.
  - destruct (threads s !! n) as [w|] eqn:Hw; [|rewrite step_crash_none by done; apply Rm_refl].
    rewrite (step_crash _ _ _ _ Hw). cbn [db]. rewrite crash_emails. apply Rm_refl.
Qed.

Lemma run_registry env evs : forall s, Rm (emails (db s)) (emails (db (run env evs s))).
Proof.
  induction evs as [|ev evs IH]; intros s; [apply Rm_refl|].
  eapply Rm_trans; [apply (step_registry env ev)|]. apply IH.
Qed.

End Registry.

Lemma grows_refl m : grows m m.
Proof. intros t r H. exists r. split_and!; [done|done|lia]. Qed.

Lemma grows_trans a b c : grows a b -> grows b c -> grows a c.
Proof.
  intros Hab Hbc t r H. destruct (Hab t r H) as (r1 & H1 & F1 & C1).
  destruct (Hbc t r1 H1) as (r2 & H2 & F2 & C2). exists r2. split_and!; [done|congruence|lia].
Qed.

Lemma grows_flush now (batch : gset string) m : grows m (upsert_all now (elements batch) m).
Proof.
  intros t r H. rewrite lookup_flushed, H. destruct (decide (t ∈ batch)).
  - eexists. split; [done|]. simpl. split; [done|lia].
  - exists r. split_and!; [done|done|lia].
Qed.

(** X8: registry rows are kept for good: whatever is submitted, commanded or
    scanned, in whatever order, a row that exists stays, with the same
    [first_seen_ts] and a [seen_count] that is not lower. *)
Theorem registry_only_grows (env : Env) (evs : list event) (s : Sys) (t : string)
    (r : Email.t) :
  emails (db s) !! t = Some r ->
  exists r', emails (db (run env evs s)) !! t = Some r' /\
             Email.first_seen_ts r' = Email.first_seen_ts r /\
             Email.seen_count r <= Email.seen_count r'.
Proof.
  apply (run_registry grows grows_refl grows_trans grows_flush env evs s).
Qed.

Lemma registry_only_grows_witness :
  let s := run (env_A false) [Submit 0 (submit "/data"); Tick 0 1; Tick 0 2; Tick 0 3] boot in
  exists r', emails (db (run (env_A false)
                           [Delete 1; Submit 7 (submit "/data"); Tick 1 8; Tick 1 9; Tick 1 10] s))
               !! "john.doe@example.com" = Some r' /\
             Email.first_seen_ts r' = 2 /\ 1 <= Email.seen_count r'.
Proof.
  intros s.
  apply (registry_only_grows (env_A false) _ s "john.doe@example.com" (Email.mk 2 2 1)).
  vm_compute. reflexivity.
Defined.

(** X9: in every state the system can reach, every registry row has a
    [seen_count] of at least 1. *)
Theorem seen_count_at_least_one (env : Env) (evs : list event) (t : string) (r : Email.t) :
  emails (db (run env evs boot)) !! t = Some r -> 1 <= Email.seen_count r.
Proof.
  revert t r. change (counted (emails (db (run env evs boot)))).
  apply (run_registry (fun m m' => counted m -> counted m')); try done.
  - auto.
  - intros now batch m Hm t r. rewrite lookup_flushed. destruct (decide (t ∈ batch)).
    + intros [= <-]. destruct (m !! t) as [r0|] eqn:E; simpl; [|lia].
      specialize (Hm t r0 E). lia.
    + apply Hm.
Qed.

Lemma seen_count_at_least_one_witness :
  let evs := [Submit 0 (submit "/data"); Tick 0 1; Tick 0 2; Tick 0 3] in
  emails (db (run (env_A false) evs boot)) !! "john.doe@example.com" = Some (Email.mk 2 2 1) /\
  1 <= Email.seen_count (Email.mk 2 2 1).
Proof.
  intros evs.
  assert (H : emails (db (run (env_A false) evs boot)) !! "john.doe@example.com"
              = Some (Email.mk 2 2 1)) by (vm_compute; reflexivity).
  split; [exact H|].
  exact (seen_count_at_least_one (env_A false) evs "john.doe@example.com" _ H).
Defined.

(** ** [emails_found] *)

(** X10: a flush of a nonempty batch for a job whose record exists sets the
    job's [emails_found] to the number of rows of the whole registry after
    the flush: the rows there were, and the tokens of the batch that were
    new. *)
Theorem emails_found_is_registry_size (now : Q) (id : Z) (batch : gset string)
    (db : DB) (j : Job.t) :
  batch <> ∅ -> jobs db !! id = Some j ->
  exists db' j',
    _flush_emails now (Some id) batch db = Return tt db' /\
    jobs db' !! id = Some j' /\
    Job.emails_found j' = Z.of_nat (size (emails db')) /\
    size (emails db') = size (dom (emails db) ∪ batch).
Proof.
  intros Hne Hj. unfold _flush_emails. rewrite decide_False by done.
  eexists _, _. split; [done|]. cbn [jobs emails update_job with_jobs with_emails].
  rewrite lookup_alter_eq, Hj. split; [done|]. split; [done|].
  rewrite <- size_dom, dom_flushed. f_equal. set_solver.
Qed.

Lemma emails_found_is_registry_size_witness :
  exists db' j',
    _flush_emails 4 (Some 1) {[ "ann@a.org" ]} db_cancelled = Return tt db' /\
    jobs db' !! 1 = Some j' /\
    Job.emails_found j' = Z.of_nat (size (emails db')) /\
    size (emails db') = size (dom (emails db_cancelled) ∪ ({[ "ann@a.org" ]} : gset string)).
Proof.
  eapply (emails_found_is_registry_size 4 1 {[ "ann@a.org" ]} db_cancelled);
    [|reflexivity].
  intros H. apply (f_equal size) in H. vm_compute in H. discriminate H.
Defined.

(** ** The size of the batch *)

Lemma add_email_small now job batch email db :
  match add_email now job batch email db with
  | Return b _ => small b
  | Raise _ _ => True
  end.
Proof.
  unfold add_email. destruct (batch_size <=? _) eqn:E.
  - unfold bind. destruct (_flush_emails _ _ _ _); [|done]. simpl.
    unfold small. rewrite size_empty. done.
  - simpl. unfold small. lia.
Qed.

Lemma scan_loop_small now job found : forall batch db,
  small batch ->
  match scan_loop now job batch found db with
  | Return b _ => small b
  | Raise _ _ => True
  end.
Proof.
  induction found as [|email found IH]; intros batch db Hb; cbn [scan_loop]; [done|].
  unfold bind. pose proof (add_email_small now job batch email db) as H.
  destruct (add_email now job batch email db) as [b db1|]; [|done]. by apply IH.
Qed.

Lemma small_empty : small ∅.
Proof. unfold small. rewrite size_empty. done. Qed.

Lemma leave_loop_small now job w db :
  small (emails_batch w) -> small (emails_batch (fst (leave_loop now job w db))).
Proof.
  intros Hb. unfold leave_loop. destruct (decide _); [done|].
  destruct (_flush_emails _ _ _ _); simpl; [apply small_empty|].
  unfold on_exception. by destruct (db_get _ _).
Qed.

Lemma process_file_small env now job w cur rest db :
  small (emails_batch w) ->
  small (emails_batch (fst (process_file env now job w cur rest db))).
Proof.
  intros Hb. unfold process_file.
  assert (H : match scan_one env now job w cur db with
              | Return (b, _) _ => small b
              | Raise _ _ => True
              end).
  { unfold scan_one. destruct cur as [path fsize]. destruct (negb _).
    - unfold bind, _update_metrics. by destruct job.
    - unfold bind. pose proof (scan_loop_small now job (scan_file env path) (emails_batch w) db Hb) as H.
      destruct (scan_loop _ _ _ _ _); [|done]. unfold _update_metrics. by destruct job. }
  destruct (scan_one env now job w cur db) as [[b p] db1|c p].
  - unfold next_file. destruct rest; [by apply leave_loop_small|done].
  - unfold on_exception. by destruct (db_get _ _).
Qed.

Lemma tick_small env now w db :
  small (emails_batch w) -> small (emails_batch (fst (tick env now w db))).
Proof.
  intros Hb. unfold tick. destruct (at_ w) as [|cur rest|cur rest| |];
    destruct (db_get db (job_id w)) as [j|]; try done.
  - unfold next_file. destruct (iter_files _ _); [|apply small_empty].
    apply leave_loop_small, small_empty.
  - destruct (Job.cancelled j).
    { unfold stop_cancelled. destruct (decide _); [done|by apply leave_loop_small]. }
    destruct (Job.paused j); [done|by apply process_file_small].
  - by apply leave_loop_small.
  - by destruct (negb _).
Qed.

(** X11: between two moves no worker holds a batch of 2000 tokens or more:
    a batch that reaches the threshold is flushed and emptied at once. *)
Theorem batch_stays_below_threshold (env : Env) (evs : list event) (n : nat) (w : Worker) :
  threads (run env evs boot) !! n = Some w ->
  Z.of_nat (size (emails_batch w)) < 2000.
Proof.
  revert n w. apply (run_ind env (fun s => forall n w, threads s !! n = Some w -> small (emails_batch w))).
  - intros n w. simpl. by rewrite lookup_nil.
  - intros s ev IH n w. destruct ev as [now f|k|k|k|k|m now|m]; try apply IH.
    + simpl. destruct (create_job env now f (db s)) as [[db' r] [[i path]|]]; simpl; [|apply IH].
      intros [Hw|[_ Hw]]%lookup_app_Some; [by eapply IH|].
      apply list_lookup_singleton_Some in Hw as [_ <-]. apply small_empty.
    + destruct (threads s !! m) as [w0|] eqn:Hw0; [|rewrite step_tick_none by done; apply IH].
      rewrite (step_tick _ _ _ _ _ Hw0). simpl. destruct (decide (m = n)) as [->|Hne].
      * rewrite list_lookup_insert_eq by by eapply lookup_lt_Some.
        intros [= <-]. apply tick_small. by eapply IH.
      * rewrite list_lookup_insert_ne by done. apply IH.
    + destruct (threads s !! m) as [w0|] eqn:Hw0; [|rewrite step_crash_none by done; apply IH].
      rewrite (step_crash _ _ _ _ Hw0). simpl. destruct (decide (m = n)) as [->|Hne].
      * rewrite list_lookup_insert_eq by by eapply lookup_lt_Some.
        intros [= <-]. destruct (crash_thread w0 (db s)) as [-> | ->];
          cbn [goto emails_batch]; by eapply IH.
      * rewrite list_lookup_insert_ne by done. apply IH.
Qed.

Lemma batch_stays_below_threshold_witness :
  let s := run env_two [Submit 0 (submit "/data"); Tick 0 1; Tick 0 2] boot in
  emails_batch <$> threads s !! 0%nat = Some {[ "ann@a.org" ]} /\
  Z.of_nat (size ({[ "ann@a.org" ]} : gset string)) < 2000.
Proof.
  intros s. split; [vm_compute; reflexivity|].
  destruct (threads s !! 0%nat) as [w|] eqn:Hw; [|vm_compute in Hw; discriminate Hw].
  assert (E : emails_batch w = {[ "ann@a.org" ]}).
  { vm_compute in Hw. injection Hw as <-. vm_compute. reflexivity. }
  rewrite <- E.
  exact (batch_stays_below_threshold env_two _ 0 w Hw).
Defined.

(** ** What one job adds to the counts *)

Lemma small_subseteq (a b : gset string) : a ⊆ b -> small b -> small a.
Proof. unfold small. intros H%subseteq_size. lia. Qed.

Lemma scan_loop_no_flush now job found : forall batch db,
  small (batch ∪ list_to_set (canon_email <$> found)) ->
  scan_loop now job batch found db
  = Return (batch ∪ list_to_set (canon_email <$> found)) db.
Proof.
  induction found as [|email found IH]; intros batch db Hs; cbn [scan_loop].
  - unfold ret. f_equal. set_solver.
  - unfold bind, add_email.
    assert (Hb : small (batch ∪ {[canon_email email]})).
    { eapply small_subseteq; [|exact Hs]. set_solver. }
    unfold small in Hb. destruct (Z.leb_spec batch_size (Z.of_nat (size (batch ∪ {[canon_email email]}))));
      [lia|].
    unfold ret.
    assert (E : batch ∪ list_to_set (canon_email <$> email :: found)
                = (batch ∪ {[canon_email email]}) ∪ list_to_set (canon_email <$> found))
      by set_solver.
    rewrite E in *. by apply IH.
Qed.

Lemma process_file_no_flush env now id w path fsize rest db :
  small (emails_batch w ∪ tokens env path) ->
  exists w' db',
    process_file env now (Some id) w (path, fsize) rest db = (w', db') /\
    job_id w' = job_id w /\ rewrote id db db' /\
    match rest with
    | [] => at_ w' = Finish /\
            emails db' = upsert_all (Qfloor now)
                           (elements (emails_batch w ∪ tokens env path)) (emails db)
    | f :: rest' => at_ w' = Loop f rest' /\ emails db' = emails db /\
                    emails_batch w' = emails_batch w ∪ tokens env path
    end.
Proof.
  intros Hs. unfold process_file, scan_one, tokens in *.
  destruct (looks_like_text path); cbn [negb].
  - unfold bind. rewrite scan_loop_no_flush by done. cbn [_update_metrics ret].
    unfold next_file. destruct rest as [|f rest'].
    + match goal with |- context [leave_loop now (Some id) ?w0 ?db0] =>
        destruct (leave_loop_some now id w0 db0) as (db' & -> & Em & R) end.
      eexists _, db'. split; [done|]. split; [done|]. split.
      { eapply rewrote_trans; [apply rewrote_update, keeps_metrics|done]. }
      split; [done|]. rewrite Em. done.
    + eexists _, _. split; [done|]. split; [done|].
      split; [apply rewrote_update, keeps_metrics|]. done.
  - unfold bind. cbn [_update_metrics ret].
    assert (E : emails_batch w ∪ ∅ = emails_batch w) by set_solver. rewrite E.
    unfold next_file. destruct rest as [|f rest'].
    + match goal with |- context [leave_loop now (Some id) ?w0 ?db0] =>
        destruct (leave_loop_some now id w0 db0) as (db' & -> & Em & R) end.
      eexists _, db'. split; [done|]. split; [done|]. split.
      { eapply rewrote_trans; [apply rewrote_update, keeps_metrics|done]. }
      split; [done|]. rewrite Em. done.
    + eexists _, _. split; [done|]. split; [done|].
      split; [apply rewrote_update, keeps_metrics|]. done.
Qed.

Lemma ticks_loop_no_flush env : forall rest cur clocks w db,
  at_ w = Loop cur rest -> undisturbed db (job_id w) ->
  length clocks = S (length rest) ->
  small (emails_batch w ∪ all_tokens env (cur :: rest)) ->
  exists w' db' ts,
    ticks env clocks w db = (w', db') /\
    job_id w' = job_id w /\ at_ w' = Finish /\ rewrote (job_id w) db db' /\
    emails db' = upsert_all ts (elements (emails_batch w ∪ all_tokens env (cur :: rest)))
                   (emails db).
Proof.
  induction rest as [|f rest IH]; intros [path fsize] clocks w db Hat Hq Hlen Hs;
    destruct clocks as [|now clocks]; simplify_eq/=.
  - destruct clocks; [|done]. destruct Hq as (j & Hj & Hp & Hc).
    unfold tick, db_get. rewrite Hat, Hj, Hc, Hp.
    assert (E : emails_batch w ∪ all_tokens env [(path, fsize)]
                = emails_batch w ∪ tokens env path).
    { unfold all_tokens. simpl. set_solver. }
    rewrite E in *.
    destruct (process_file_no_flush env now (job_id w) w path fsize [] db Hs)
      as (w' & db' & -> & Hid & R & Hfin & Em).
    exists w', db', (Qfloor now). done.
  - pose proof Hq as (j & Hj & Hp & Hc).
    assert (Hs1 : small (emails_batch w ∪ tokens env path)).
    { eapply small_subseteq; [|exact Hs]. unfold all_tokens. simpl. set_solver. }
    destruct (process_file_no_flush env now (job_id w) w path fsize (f :: rest) db Hs1)
      as (w1 & db1 & E1 & Hid & R & Hat1 & Em & Hb).
    unfold tick at 1, db_get. rewrite Hat, Hj, Hc, Hp, E1.
    assert (E : emails_batch w ∪ all_tokens env ((path, fsize) :: f :: rest)
                = emails_batch w1 ∪ all_tokens env (f :: rest)).
    { rewrite Hb. unfold all_tokens. simpl. set_solver. }
    rewrite E in *.
    destruct (IH f clocks w1 db1) as (w' & db' & ts & E' & Hid' & Hfin & R' & Em');
      [done| |lia|done|].
    { rewrite Hid. by eapply undisturbed_rewrote. }
    exists w', db', ts. rewrite E'. split; [done|]. split; [congruence|]. split; [done|].
    split; [|by rewrite Em', Em].
    rewrite Hid in R'. by eapply rewrote_trans.
Qed.

(** X12: a job that nobody interrupts and whose files hold fewer than 2000
    distinct canonical tokens: when it is done, the count of every token
    found in a file that passes the filter has grown by exactly one, however
    often and in however many files the token occurs, and every other count
    is as before. *)
Theorem job_counts_each_token_once (env : Env) (s : Sys) (n : nat) (id : Z)
    (path : string) (clocks : list Q) (t : string) :
  threads s !! n = Some (spawn id path) ->
  undisturbed (db s) id ->
  length clocks = (length (iter_files (fs env) path) + 2)%nat ->
  Z.of_nat (size (all_tokens env (iter_files (fs env) path))) < 2000 ->
  seen (db (run env (Tick n <$> clocks) s)) t
  = seen (db s) t
    + (if decide (t ∈ all_tokens env (iter_files (fs env) path)) then 1 else 0).
Proof.
  intros Hw Hq Hlen Hs. rewrite (run_ticks env n clocks s _ Hw). cbn [db].
  destruct clocks as [|c0 clocks]; [simpl in Hlen; lia|].
  destruct (tick_start_undisturbed env c0 (spawn id path) (db s) eq_refl eq_refl Hq)
    as (w1 & db1 & E1 & Hid1 & Hpb1 & Hb1 & Hat1 & Hq1 & Em1).
  cbn [ticks]. rewrite E1. cbn [server_path spawn job_id] in *.
  destruct (iter_files (fs env) path) as [|f rest] eqn:Ef.
  - destruct clocks as [|c1 [|]]; try (simpl in Hlen; lia).
    rewrite <- Hid1 in Hq1. cbn [ticks].
    destruct (tick_finish_undisturbed env c1 w1 db1 Hat1 Hq1)
      as (w' & db' & j' & -> & _ & _ & _ & _ & Em).
    cbn [snd ticks]. unfold seen. rewrite Em, Em1. rewrite decide_False; [lia|].
    unfold all_tokens. simpl. set_solver.
  - assert (exists (front : list Q) c,
              clocks = (front ++ [c])%list /\ length front = S (length rest))
      as (front & c & -> & Hfront).
    { destruct (exists_last (l := clocks)) as (front & c & ->).
      { intros ->. simpl in Hlen. lia. }
      exists front, c. split; [done|]. simpl in Hlen. rewrite length_app in Hlen.
      simpl in Hlen. lia. }
    rewrite ticks_app. rewrite <- Hid1 in Hq1.
    assert (Hs1 : small (emails_batch w1 ∪ all_tokens env (f :: rest))).
    { rewrite Hb1. eapply small_subseteq; [|exact Hs]. set_solver. }
    destruct (ticks_loop_no_flush env rest f front w1 db1 Hat1 Hq1 Hfront Hs1)
      as (w2 & db2 & ts & -> & Hid2 & Hat2 & R2 & Em2).
    cbn [fst snd ticks].
    assert (Hq2 : undisturbed db2 (job_id w2)).
    { rewrite Hid2. by eapply undisturbed_rewrote. }
    destruct (tick_finish_undisturbed env c w2 db2 Hat2 Hq2)
      as (w' & db' & j' & -> & _ & _ & _ & _ & Em).
    cbn [snd]. rewrite Hb1 in Em2.
    assert (Ee : (∅ ∪ all_tokens env (f :: rest) : gset string) = all_tokens env (f :: rest))
      by set_solver.
    rewrite Ee in Em2.
    assert (Hfinal : emails db' = upsert_all ts (elements (all_tokens env (f :: rest)))
                                    (emails (db s))) by (by rewrite Em, Em2, Em1).
    apply (seen_flushed _ _ _ _ _ Hfinal).
Qed.

Lemma job_counts_each_token_once_witness :
  let s := run env_twice [Submit 0 (submit "/data")] boot in
  seen (db (run env_twice (Tick 0 <$> [1; 2; 3]%Q) s)) "a@b.co" = seen (db s) "a@b.co" + 1.
Proof.
  intros s.
  assert (Hq : undisturbed (db s) 1).
  { eexists. split; [vm_compute; reflexivity|]. split; reflexivity. }
  assert (Hs : Z.of_nat (size (all_tokens env_twice (iter_files (fs env_twice) "/data"))) < 2000)
    by (vm_compute; reflexivity).
  rewrite (job_counts_each_token_once env_twice s 0 1 "/data" [1; 2; 3]%Q "a@b.co"
             eq_refl Hq eq_refl Hs).
  vm_compute. reflexivity.
Defined.

(** ** More on the canonicalizer *)

Lemma lstrip_spaces pre s :
  all_chars Py.isspace pre = true -> Py.lstrip (pre +:+ s) = Py.lstrip s.
Proof.
  induction pre as [|c pre IH]; [done|]. cbn [all_chars]. intros [Hc Hp]%andb_true_iff.
  change (String c pre +:+ s) with (String c (pre +:+ s)). cbn [Py.lstrip]. rewrite Hc. auto.
Qed.

Lemma rstrip_spaces post :
  all_chars Py.isspace post = true -> Py.rstrip post = EmptyString.
Proof.
  induction post as [|c post IH]; [done|]. cbn [all_chars Py.rstrip].
  intros [Hc Hp]%andb_true_iff. by rewrite IH, Hc.
Qed.

Lemma rstrip_app_spaces s post :
  all_chars Py.isspace post = true -> Py.rstrip (s +:+ post) = Py.rstrip s.
Proof.
  intros Hp. induction s as [|c s IH]; [by apply rstrip_spaces|].
  change (String c s +:+ post) with (String c (s +:+ post)). cbn [Py.rstrip]. by rewrite IH.
Qed.

Lemma lstrip_app_spaces s post :
  all_chars Py.isspace post = true ->
  Py.rstrip (Py.lstrip (s +:+ post)) = Py.rstrip (Py.lstrip s).
Proof.
  intros Hp. induction s as [|c s IH].
  - change (EmptyString +:+ post) with post. simpl.
    assert (H : forall p, all_chars Py.isspace p = true -> Py.lstrip p = EmptyString).
    { clear. induction p as [|c p IH]; [done|]. cbn [all_chars Py.lstrip].
      intros [-> Hp]%andb_true_iff. auto. }
    by rewrite H.
  - change (String c s +:+ post) with (String c (s +:+ post)). cbn [Py.lstrip].
    destruct (Py.isspace c); [done|].
    change (String c (s +:+ post)) with (String c s +:+ post). by apply rstrip_app_spaces.
Qed.

Lemma strip_padding pre s post :
  all_chars Py.isspace pre = true -> all_chars Py.isspace post = true ->
  Py.strip (pre +:+ s +:+ post) = Py.strip s.
Proof.
  intros Hpre Hpost. unfold Py.strip. rewrite lstrip_spaces by done.
  by apply lstrip_app_spaces.
Qed.

(** X15: the canonical form does not depend on the letter case of the input nor
    on white space around it: two strings with the same lowercased form,
    one of them padded with white space, have the same canonical form. *)
Theorem canon_email_ignores_case_and_padding (x y pre post : string) :
  Py.lower x = Py.lower y ->
  all_chars Py.isspace pre = true -> all_chars Py.isspace post = true ->
  canon_email (pre +:+ x +:+ post) = canon_email y.
Proof.
  intros Hxy Hpre Hpost. unfold canon_email. rewrite !str_or_empty.
  rewrite strip_padding by done. by rewrite <- !strip_lower, Hxy.
Qed.

Lemma canon_email_ignores_case_and_padding_witness :
  canon_email (" " +:+ "<Bob@Site.ORG>" +:+ "  ") = canon_email "<bob@SITE.org>".
Proof.
  apply (canon_email_ignores_case_and_padding "<Bob@Site.ORG>" "<bob@SITE.org>" " " "  ");
    reflexivity.
Defined.

(** X16: the canonical form is empty exactly for a string of white space only and
    for a bare pair of angle brackets, padded or not. *)
Theorem canon_email_empty_iff (x : string) :
  canon_email x = EmptyString <-> Py.strip x = EmptyString \/ Py.strip x = "<>".
Proof.
  split; [apply canon_email_empty|].
  unfold canon_email. rewrite str_or_empty. by intros [->| ->].
Qed.

Lemma canon_email_empty_iff_witness :
  Py.strip " <> " = "<>" /\ canon_email " <> " = EmptyString.
Proof.
  split; [reflexivity|].
  apply (proj2 (canon_email_empty_iff " <> ")). right. reflexivity.
Defined.

(** ** More on the extractor *)

Lemma occurrences_app c a b :
  occurrences c (a +:+ b) = (occurrences c a + occurrences c b)%nat.
Proof.
  induction a as [|d a IH]; [done|].
  change (String d a +:+ b) with (String d (a +:+ b)). cbn [occurrences]. rewrite IH. lia.
Qed.

Lemma occurrences_none (p : ascii -> bool) c s :
  p c = false -> all_chars p s = true -> occurrences c s = 0%nat.
Proof.
  intros Hc. induction s as [|d s IH]; [done|]. cbn [all_chars occurrences].
  intros [Hd Hs]%andb_true_iff. rewrite (IH Hs).
  destruct (Ascii.eqb_spec d c) as [->|]; [congruence|done].
Qed.

Lemma app_length a b : String.length (a +:+ b) = (String.length a + String.length b)%nat.
Proof.
  induction a as [|d a IH]; [done|].
  change (String d a +:+ b) with (String d (a +:+ b)). simpl. by rewrite IH.
Qed.

Lemma email_lang_parts m :
  re_lang EMAIL_RE m ->
  (exists l d t,
     m = l +:+ "@" +:+ d +:+ "." +:+ t /\
     l <> EmptyString /\ all_chars local_cls l = true /\
     d <> EmptyString /\ all_chars domain_cls d = true /\
     (2 <= String.length t)%nat /\ all_chars tld_cls t = true) /\
  (6 <= String.length m)%nat /\ occurrences "@" m = 1%nat /\
  all_chars (fun c => negb (Py.isspace c)) m = true.
Proof.
  intros Hm. pose proof (email_lang_shape m Hm) as [Hplain _].
  simpl in Hm. destruct Hm as (l & b & -> & Hl & Sl & s1 & -> & d & e & -> & Hd & Sd
                               & s2 & -> & t & z & -> & Ht & St & ->).
  assert (Ez : t +:+ EmptyString = t).
  { clear. induction t as [|c t IH]; [done|].
    change (String c t +:+ EmptyString) with (String c (t +:+ EmptyString)). by rewrite IH. }
  rewrite Ez in *. apply span_full in Sl, Sd, St. split_and!.
  - exists l, d, t. split_and!; try done.
    + intros ->. simpl in Hl. lia.
    + intros ->. simpl in Hd. lia.
  - rewrite !app_length. change (String.length "@") with 1%nat.
    change (String "@" (d +:+ String "." t)) with ("@" +:+ d +:+ "." +:+ t).
    rewrite !app_length. simpl. lia.
  - change (String "@" (d +:+ String "." t)) with ("@" +:+ d +:+ "." +:+ t).
    rewrite !occurrences_app.
    rewrite (occurrences_none local_cls "@" l), (occurrences_none domain_cls "@" d),
      (occurrences_none tld_cls "@" t); done.
  - exact Hplain.
Qed.

(** X17: every match that the in-process matcher yields is a local part, an
    [@], a domain, a dot and a top-level label of at least two letters: it
    has at least six characters, exactly one [@] and no white space. *)
Theorem match_shape (text m : string) :
  In m (finditer EMAIL_RE text) ->
  (exists l d t,
     m = l +:+ "@" +:+ d +:+ "." +:+ t /\
     l <> EmptyString /\ all_chars local_cls l = true /\
     d <> EmptyString /\ all_chars domain_cls d = true /\
     (2 <= String.length t)%nat /\ all_chars tld_cls t = true) /\
  (6 <= String.length m)%nat /\ occurrences "@" m = 1%nat /\
  all_chars (fun c => negb (Py.isspace c)) m = true.
Proof. intros Hm%finditer_sound. by apply email_lang_parts. Qed.

Lemma match_shape_witness :
  In "jane@sub.example.org" (finditer EMAIL_RE text_A) /\
  (6 <= String.length "jane@sub.example.org")%nat /\
  occurrences "@" "jane@sub.example.org" = 1%nat.
Proof.
  assert (H : In "jane@sub.example.org" (finditer EMAIL_RE text_A)).
  { right. left. reflexivity. }
  split; [exact H|].
  destruct (match_shape text_A "jane@sub.example.org" H) as (_ & H6 & H1 & _).
  split; assumption.
Defined.

Lemma take_drop n s : Py.take n s +:+ Py.drop n s = s.
Proof.
  revert s. induction n as [|n IH]; intros [|c s]; try done.
  change (Py.take (S n) (String c s) +:+ Py.drop (S n) (String c s))
    with (String c (Py.take n s +:+ Py.drop n s)). by rewrite IH.
Qed.

Lemma weave_head c g gaps ms :
  weave (String c g :: gaps) ms = String c (weave (g :: gaps) ms).
Proof. by destruct ms. Qed.

Lemma finditer_from_weave re fuel : forall s,
  (String.length s <= fuel)%nat ->
  exists gaps, length gaps = S (length (finditer_from fuel re s)) /\
               s = weave gaps (finditer_from fuel re s).
Proof.
  induction fuel as [fuel IH] using lt_wf_ind. intros [|c s] Hlen.
  - exists [EmptyString]. by rewrite finditer_from_empty.
  - destruct fuel as [|fuel]; simpl in Hlen; [lia|]. cbn [finditer_from].
    destruct (match_here re (String c s)) as [[|l]|] eqn:E.
    + destruct (IH fuel ltac:(lia) s ltac:(lia)) as ([|g gaps] & Hg & Hs); [done|].
      exists (String c g :: gaps). split; [done|]. by rewrite weave_head, <- Hs.
    + pose proof (drop_length l s) as Hd.
      destruct (IH (fuel - l)%nat ltac:(lia) (Py.drop (S l) (String c s)))
        as (gaps & Hg & Hs); [simpl; lia|].
      exists (EmptyString :: gaps). split; [cbn [length]; by rewrite Hg|].
      cbn [weave]. rewrite <- Hs.
      change (EmptyString +:+ ?x) with x. by rewrite take_drop.
    + destruct (IH fuel ltac:(lia) s ltac:(lia)) as ([|g gaps] & Hg & Hs); [done|].
      exists (String c g :: gaps). split; [done|]. by rewrite weave_head, <- Hs.
Qed.

(** X18: the matches are pieces of the text, in the order of the text and
    without overlap: the text is a gap, the first match, a gap, the second
    match, and so on to a last gap. *)
Theorem matches_are_disjoint_pieces (text : string) :
  exists gaps, length gaps = S (length (finditer EMAIL_RE text)) /\
               text = weave gaps (finditer EMAIL_RE text).
Proof. apply finditer_from_weave. done. Qed.

(** X19: a text without [@] has no match. *)
Theorem no_at_no_match (text : string) :
  occurrences "@" text = 0%nat -> finditer EMAIL_RE text = [].
Proof.
  intros H0.
  destruct (finditer_from_weave EMAIL_RE (String.length text) text (Nat.le_refl _))
    as (gaps & Hlen & Ht).
  fold (finditer EMAIL_RE text) in *.
  destruct (finditer EMAIL_RE text) as [|m ms] eqn:E; [done|]. exfalso.
  assert (Hm : In m (finditer EMAIL_RE text)) by (rewrite E; by left).
  apply finditer_sound, email_lang_parts in Hm as (_ & _ & H1 & _).
  destruct gaps as [|g gaps]; [done|]. cbn [weave] in Ht.
  rewrite Ht, !occurrences_app, H1 in H0. lia.
Qed.

Lemma no_at_no_match_witness :
  occurrences "@" "no address in here, see example.org" = 0%nat /\
  finditer EMAIL_RE "no address in here, see example.org" = [].
Proof.
  split; [reflexivity|].
  apply (no_at_no_match "no address in here, see example.org"). reflexivity.
Defined.

(** ** Reading a file *)

Lemma takeN_length n s : (N.of_nat (String.length (takeN n s)) <= n)%N.
Proof.
  revert n. induction s as [|c s IH]; intros n; simpl; [lia|].
  destruct (N.eqb_spec n 0); simpl; [lia|]. specialize (IH (N.pred n)). lia.
Qed.

Lemma read_chunks_sizes n : (0 < n)%N -> forall fuel s,
  Forall (fun c => c <> EmptyString /\ (N.of_nat (String.length c) <= n)%N)
    (read_chunks fuel n s).
Proof.
  intros Hn. induction fuel as [|fuel IH]; intros [|c s]; cbn [read_chunks];
    try constructor; [|apply IH].
  split; [|apply takeN_length]. simpl. by destruct (N.eqb_spec n 0); [lia|].
Qed.

(** X20: a file is read to its end: the chunks, put together, are the text; no
    chunk is empty and none is longer than 8 MiB of characters. *)
Theorem chunks_make_up_the_text (text : string) :
  concat_str (read_chunks (String.length text) CHUNK text) = text /\
  Forall (fun c => c <> EmptyString /\ (N.of_nat (String.length c) <= 8388608)%N)
    (read_chunks (String.length text) CHUNK text).
Proof.
  split.
  - apply read_chunks_all; [done|lia].
  - apply (read_chunks_sizes CHUNK); done.
Qed.

Lemma takeN_all n s : (N.of_nat (String.length s) <= n)%N -> takeN n s = s.
Proof.
  revert n. induction s as [|c s IH]; intros n Hn; simpl in *; [done|].
  destruct (N.eqb_spec n 0); [lia|]. rewrite IH; [done|lia].
Qed.

Lemma dropN_all n s : (N.of_nat (String.length s) <= n)%N -> dropN n s = EmptyString.
Proof.
  revert n. induction s as [|c s IH]; intros n Hn; simpl in *; [done|].
  destruct (N.eqb_spec n 0); [lia|]. rewrite IH; [done|lia].
Qed.

(** X21: without the external matcher, a readable file of at most 8 MiB of
    characters is matched in one piece: what is yielded is what the pattern
    finds in the whole text. *)
Theorem scan_file_in_process (env : Env) (path : string) (sz : option Z) (text : string) :
  rg env path = None ->
  resolve (fs env) path = Some (File sz (Some text)) ->
  (N.of_nat (String.length text) <= 8388608)%N ->
  scan_file env path = finditer EMAIL_RE text.
Proof.
  intros Hrg Hres Hlen. unfold scan_file. rewrite Hrg, Hres.
  destruct text as [|c text]; [done|].
  cbn [String.length read_chunks]. rewrite takeN_all, dropN_all by done.
  destruct (String.length text); simpl; by rewrite app_nil_r.
Qed.

Lemma scan_file_in_process_witness :
  scan_file (env_A false) "/data/contacts.txt" = finditer EMAIL_RE text_A.
Proof.
  apply (scan_file_in_process (env_A false) "/data/contacts.txt" (Some 56) text_A);
    [reflexivity|reflexivity|].
  vm_compute. discriminate.
Defined.

(** X22: with the external matcher, what is yielded is its output lines, in
    their order, each trimmed, without the lines that are blank: nothing
    yielded is empty or has white space around it. *)
Theorem scan_file_external (env : Env) (path : string) (lines : list string) :
  rg env path = Some lines ->
  scan_file env path = filter (fun l => l <> EmptyString) (Py.strip <$> lines) /\
  Forall (fun m => m <> EmptyString /\ Py.strip m = m) (scan_file env path).
Proof.
  intros Hrg. unfold scan_file. rewrite Hrg. split; [done|].
  apply Forall_forall. intros m [Hne Hm]%list_elem_of_filter.
  apply list_elem_of_fmap in Hm as (l & -> & _). split; [done|apply strip_idem].
Qed.

Lemma scan_file_external_witness :
  scan_file (env_A true) "/data/contacts.txt"
  = filter (fun l => l <> EmptyString)
      (Py.strip <$> ["John.Doe@Example.COM" +:+ nl; "jane@sub.example.org" +:+ nl]) /\
  Forall (fun m => m <> EmptyString /\ Py.strip m = m)
    (scan_file (env_A true) "/data/contacts.txt").
Proof. apply (scan_file_external (env_A true) "/data/contacts.txt"). reflexivity. Defined.

(** ** The filter *)

Lemma lower_char_sep c :
  Ascii.eqb (Py.lower_char c) "/" = Ascii.eqb c "/" /\
  Ascii.eqb (Py.lower_char c) "." = Ascii.eqb c "." /\
  Ascii.eqb "." (Py.lower_char c) = Ascii.eqb "." c.
Proof. each_char c; split_and!; reflexivity. Qed.

Lemma rfind_from_lower_sep i best s :
  rfind_from i best "/" (Py.lower s) = rfind_from i best "/" s /\
  rfind_from i best "." (Py.lower s) = rfind_from i best "." s.
Proof.
  revert i best. induction s as [|c s IH]; intros i best; [done|]. cbn [Py.lower rfind_from].
  destruct (lower_char_sep c) as (-> & -> & _). split; apply IH.
Qed.

Lemma all_dots_lower s :
  all_chars (Ascii.eqb ".") (Py.lower s) = all_chars (Ascii.eqb ".") s.
Proof.
  induction s as [|c s IH]; [done|]. cbn [Py.lower all_chars].
  destruct (lower_char_sep c) as (_ & _ & ->). by rewrite IH.
Qed.

Lemma splitext_ext_lower p : splitext_ext (Py.lower p) = Py.lower (splitext_ext p).
Proof.
  unfold splitext_ext, rfind.
  destruct (rfind_from_lower_sep 0 (-1) p) as [-> ->].
  destruct (_ <? _); [|done].
  rewrite <- lower_slice, all_dots_lower. destruct (all_chars _ _); [done|].
  unfold Py.len. by rewrite lower_slice, lower_length.
Qed.

(** X23: the filter does not look at letter case: a path and the same path in
    lower case are judged alike. *)
Theorem looks_like_text_ignores_case (path : string) :
  looks_like_text (Py.lower path) = looks_like_text path.
Proof. unfold looks_like_text. by rewrite splitext_ext_lower, lower_idem. Qed.

(** ** Bytes walked and bytes to walk *)

Lemma leave_loop_at now job w db :
  at_ (fst (leave_loop now job w db)) = Finish \/ at_ (fst (leave_loop now job w db)) = Exit.
Proof.
  unfold leave_loop. destruct (decide _); [by left|].
  destruct (_flush_emails _ _ _ _); [by left|].
  unfold on_exception. destruct (db_get _ _); by right.
Qed.

Lemma accounted_done env w : at_ w = Finish \/ at_ w = Exit -> accounted env w.
Proof. intros [H|H] files; by rewrite H. Qed.

Lemma process_file_accounted env now job w cur rest db :
  processed_bytes w + sum_sizes (cur :: rest)
  = sum_sizes (iter_files (fs env) (server_path w)) ->
  accounted env (fst (process_file env now job w cur rest db)).
Proof.
  intros Hacc. unfold process_file.
  assert (H : match scan_one env now job w cur db with
              | Return (_, p) _ => p = processed_bytes w + snd cur
              | Raise _ _ => True
              end).
  { unfold scan_one. destruct cur as [path fsize]. destruct (negb _); unfold bind.
    - unfold _update_metrics. by destruct job.
    - destruct (scan_loop _ _ _ _ _); [|done]. unfold _update_metrics. by destruct job. }
  destruct (scan_one env now job w cur db) as [[b p] db1|c p].
  - subst p. unfold next_file. destruct rest as [|f rest'].
    + apply accounted_done, leave_loop_at.
    + intros files [= <-]. simpl in *. lia.
  - apply accounted_done. unfold on_exception. destruct (db_get _ _); by right.
Qed.

Lemma tick_accounted env now w db :
  accounted env w -> accounted env (fst (tick env now w db)).
Proof.
  intros Hacc. unfold tick. destruct (at_ w) as [|cur rest|cur rest| |] eqn:Hat;
    destruct (db_get db (job_id w)) as [j|].
  - unfold next_file. destruct (iter_files (fs env) (server_path w)) as [|f rest] eqn:Ef.
    + apply accounted_done, leave_loop_at.
    + intros files [= <-]. simpl. rewrite Ef. simpl. lia.
  - apply accounted_done. by right.
  - destruct (Job.cancelled j).
    { apply accounted_done. unfold stop_cancelled.
      destruct (decide _); [by right|apply leave_loop_at]. }
    destruct (Job.paused j).
    + intros files [= <-]. apply Hacc. by rewrite Hat.
    + apply process_file_accounted. apply Hacc. by rewrite Hat.
  - apply accounted_done, leave_loop_at.
  - exact Hacc.
  - exact Hacc.
  - apply accounted_done. destruct (negb _); by right.
  - apply accounted_done. by right.
  - done.
  - done.
Qed.

(** X13: in every state the system can reach, for every worker in its loop, the
    bytes it has counted and the sizes of the files it has not visited yet
    add up to the total of the sizes that [iter_files] enumerates under its
    path. *)
Theorem bytes_walked_plus_bytes_ahead (env : Env) (evs : list event) (n : nat) (w : Worker)
    (files : list (string * Z)) :
  threads (run env evs boot) !! n = Some w ->
  ahead (at_ w) = Some files ->
  processed_bytes w + sum_sizes files = sum_sizes (iter_files (fs env) (server_path w)).
Proof.
  intros Hw. revert files. change (accounted env w). revert n w Hw.
  apply (run_ind env (fun s => forall n w, threads s !! n = Some w -> accounted env w)).
  - intros n w. simpl. by rewrite lookup_nil.
  - intros s ev IH n w. destruct ev as [now f|k|k|k|k|m now|m]; try apply IH.
    + simpl. destruct (create_job env now f (db s)) as [[db' r] [[i path]|]]; simpl; [|apply IH].
      intros [Hw|[_ Hw]]%lookup_app_Some; [by eapply IH|].
      apply list_lookup_singleton_Some in Hw as [_ <-]. by intros files.
    + destruct (threads s !! m) as [w0|] eqn:Hw0; [|rewrite step_tick_none by done; apply IH].
      rewrite (step_tick _ _ _ _ _ Hw0). simpl. destruct (decide (m = n)) as [->|Hne].
      * rewrite list_lookup_insert_eq by by eapply lookup_lt_Some.
        intros [= <-]. apply tick_accounted. by eapply IH.
      * rewrite list_lookup_insert_ne by done. apply IH.
    + destruct (threads s !! m) as [w0|] eqn:Hw0; [|rewrite step_crash_none by done; apply IH].
      rewrite (step_crash _ _ _ _ Hw0). simpl. destruct (decide (m = n)) as [->|Hne].
      * rewrite list_lookup_insert_eq by by eapply lookup_lt_Some.
        intros [= <-]. destruct (crash_thread w0 (db s)) as [-> | ->]; [by eapply IH|].
        by apply accounted_done; right.
      * rewrite list_lookup_insert_ne by done. apply IH.
Qed.

Lemma bytes_walked_plus_bytes_ahead_witness :
  let s := run env_two [Submit 0 (submit "/data"); Tick 0 1; Tick 0 2] boot in
  (processed_bytes <$> threads s !! 0%nat = Some 9) /\
  9 + sum_sizes [("/data/b.txt", 9)] = sum_sizes (iter_files (fs env_two) "/data").
Proof.
  intros s. split; [vm_compute; reflexivity|].
  destruct (threads s !! 0%nat) as [w|] eqn:Hw; [|vm_compute in Hw; discriminate Hw].
  assert (E : processed_bytes w = 9 /\ server_path w = "/data" /\
              ahead (at_ w) = Some [("/data/b.txt", 9)]).
  { vm_compute in Hw. injection Hw as <-. split_and!; reflexivity. }
  destruct E as (Ep & Es & Ea).
  pose proof (bytes_walked_plus_bytes_ahead env_two _ 0 w _ Hw Ea) as H.
  rewrite Ep, Es in H. exact H.
Defined.

(** ** The enumeration *)

Lemma well_formed_entry es e :
  well_formed (Dir es) -> In e es -> name_ok (fst e) /\ well_formed (snd e).
Proof.
  intros [_ H]. induction es as [|e0 es IH]; [done|].
  destruct H as (Hn & Hw & H). intros [<-|Hin]; [done|]. by apply IH.
Qed.

Lemma app_assoc_str a b c : (a +:+ b) +:+ c = a +:+ (b +:+ c).
Proof.
  induction a as [|x a IH]; [done|].
  change ((String x a +:+ b) +:+ c) with (String x ((a +:+ b) +:+ c)). by rewrite IH.
Qed.

Lemma split_on_sep sep a : forall cur b,
  split_on sep cur (a +:+ String sep b) = (split_on sep cur a ++ split_on sep EmptyString b)%list.
Proof.
  induction a as [|c a IH]; intros cur b.
  - change (EmptyString +:+ String sep b) with (String sep b). simpl.
    by rewrite Ascii.eqb_refl.
  - change (String c a +:+ String sep b) with (String c (a +:+ String sep b)).
    cbn [split_on]. destruct (Ascii.eqb c sep); by rewrite IH.
Qed.

Lemma split_on_plain sep t : forall cur,
  occurrences sep t = 0%nat -> split_on sep cur t = [cur +:+ t].
Proof.
  induction t as [|c t IH]; intros cur H.
  - simpl. f_equal. clear. induction cur as [|x cur IH]; [done|].
    change (String x cur +:+ EmptyString) with (String x (cur +:+ EmptyString)). by rewrite <- IH.
  - cbn [occurrences] in H. cbn [split_on].
    destruct (Ascii.eqb c sep); [simpl in H; lia|]. rewrite IH by (simpl in H; lia).
    by rewrite app_assoc_str.
Qed.

Lemma components_sep top name :
  name_ok name -> components (top +:+ String "/" name) = (components top ++ [name])%list.
Proof.
  intros [Hne H0]. unfold components. rewrite split_on_sep, filter_app.
  rewrite (split_on_plain "/" name EmptyString H0).
  change (EmptyString +:+ name) with name.
  rewrite filter_cons_True by done. done.
Qed.

Lemma components_trailing top :
  components (top +:+ "/") = components top.
Proof.
  unfold components. rewrite split_on_sep, filter_app. simpl.
  rewrite filter_cons_False by (intros H; by apply H). by rewrite filter_nil, app_nil_r.
Qed.

Lemma endswith_sep s :
  Py.endswith s "/" = true -> exists s', s = s' +:+ "/".
Proof.
  induction s as [|c s IH]; [done|]. cbn [Py.endswith].
  intros [H|H]%orb_true_iff.
  - apply String.eqb_eq in H as ->. by exists EmptyString.
  - destruct (IH H) as (s' & ->). by exists (String c s').
Qed.

Lemma name_not_absolute name : name_ok name -> Py.startswith name "/" = false.
Proof.
  intros [Hne H0]. destruct name as [|c name]; [done|]. cbn [Py.startswith occurrences] in *.
  destruct (Ascii.eqb c "/"); [simpl in H0; lia|done].
Qed.

Lemma components_join top name :
  name_ok name -> components (join top name) = (components top ++ [name])%list.
Proof.
  intros Hn. unfold join. rewrite (name_not_absolute name Hn).
  destruct (String.eqb_spec top EmptyString) as [->|_]; simpl orb; cbv iota.
  - change (EmptyString +:+ name) with name. destruct Hn as [Hne H0].
    assert (E : components EmptyString = []) by reflexivity. rewrite E.
    unfold components. rewrite (split_on_plain "/" name EmptyString H0).
    change (EmptyString +:+ name) with name.
    by rewrite filter_cons_True by done.
  - destruct (Py.endswith top "/") eqn:E.
    + apply endswith_sep in E as (top' & ->).
      rewrite components_trailing, app_assoc_str.
      change ("/" +:+ name) with (String "/" name). by apply components_sep.
    + change ("/" +:+ name) with (String "/" name). by apply components_sep.
Qed.

Lemma resolve_from_app cs : forall up n cs',
  resolve_from up n (cs ++ cs')
  = match resolve_from up n cs with
    | Some (up', d) => resolve_from up' d cs'
    | None => None
    end.
Proof.
  induction cs as [|c cs IH]; intros up n cs'; [done|]. cbn [app resolve_from].
  destruct n as [sz c0|es]; [done|].
  destruct (child (Dir es) c); [apply IH|].
  destruct (String.eqb c "."); [apply IH|].
  destruct (String.eqb c ".."); [|done]. destruct up; apply IH.
Qed.

Lemma child_well_formed es c n :
  well_formed (Dir es) -> child (Dir es) c = Some n -> well_formed n.
Proof.
  intros Hwf Hc. unfold child in Hc. destruct (List.find _ es) as [e|] eqn:Hf; [|done].
  injection Hc as <-. apply find_some in Hf as [Hin _].
  by apply (well_formed_entry es e Hwf Hin).
Qed.

(** A path through a well-formed tree passes well-formed nodes only. *)
Lemma resolve_from_well_formed cs : forall up n up' d,
  resolve_from up n cs = Some (up', d) ->
  well_formed n -> Forall well_formed up ->
  well_formed d /\ Forall well_formed up'.
Proof.
  induction cs as [|c cs IH]; intros up n up' d; cbn [resolve_from].
  - by intros [= <- <-].
  - destruct n as [sz c0|es]; [done|].
    destruct (child (Dir es) c) as [n'|] eqn:Hc.
    { intros H Hn Hup. apply (IH _ _ _ _ H); [by eapply child_well_formed|].
      by apply Forall_cons_2. }
    destruct (String.eqb c "."); [apply IH|].
    destruct (String.eqb c ".."); [|done].
    destruct up as [|p up0]; [apply IH|].
    intros H _ [Hp Hup]%Forall_cons_1. by apply (IH _ _ _ _ H).
Qed.

Lemma endswith_plain name :
  occurrences "/" name = 0%nat -> Py.endswith name "/" = false.
Proof.
  induction name as [|c name IH]; [done|]. cbn [occurrences Py.endswith].
  intros H. destruct (Ascii.eqb_spec c "/") as [->|Hc]; [simpl in H; lia|].
  rewrite IH by (simpl in H; lia). rewrite orb_false_r.
  apply String.eqb_neq. intros [= E _]. done.
Qed.

Lemma endswith_app a b :
  b <> EmptyString -> Py.endswith b "/" = false -> Py.endswith (a +:+ b) "/" = false.
Proof.
  intros Hne Hb. induction a as [|c a IH]; [done|].
  change (String c a +:+ b) with (String c (a +:+ b)). cbn [Py.endswith].
  rewrite IH, orb_false_r. apply String.eqb_neq. intros [= _ E].
  destruct a; [by apply Hne|done].
Qed.

(** A path that [os.walk] builds does not end in a separator. *)
Lemma endswith_join top name : name_ok name -> Py.endswith (join top name) "/" = false.
Proof.
  intros Hn. pose proof (name_not_absolute name Hn) as Hrel. destruct Hn as [Hne H0].
  pose proof (endswith_plain name H0) as Hend.
  unfold join. rewrite Hrel. destruct (_ || _).
  - by apply endswith_app.
  - apply endswith_app; [done|].
    change ("/" +:+ name) with (String "/" name). cbn [Py.endswith].
    rewrite Hend, orb_false_r. apply String.eqb_neq. intros [= E]. by apply Hne.
Qed.

Lemma child_entry es e :
  NoDup (fst <$> es) -> In e es -> child (Dir es) (fst e) = Some (snd e).
Proof.
  unfold child. induction es as [|e0 es IH]; [done|]. cbn [fmap list_fmap].
  intros [Hnot Hnd]%NoDup_cons [<-|Hin]; cbn [List.find].
  - by rewrite String.eqb_refl.
  - destruct (String.eqb_spec (fst e0) (fst e)) as [E|_]; [|by apply IH].
    exfalso. apply Hnot. rewrite E. apply list_elem_of_fmap. exists e.
    split; [done|]. by apply list_elem_of_In.
Qed.

Lemma walk_sound root : forall d top up,
  well_formed d -> resolve_from [] root (components top) = Some (up, d) ->
  forall p sz, In (p, sz) (walk top d) ->
  exists c, resolve root p = Some (File (Some sz) c).
Proof.
  intros d. induction d as [sz0 c0|es IH] using node_induction;
    intros top up Hwf Hres p sz; [done|].
  cbn [walk]. rewrite in_app_iff, !in_flat_map.
  intros [(e & Hin & Hp)|(e & Hin & Hp)];
    destruct (well_formed_entry es e Hwf Hin) as [Hname Hwfe];
    assert (Hchild : resolve_from [] root (components (join top (fst e)))
                     = Some (Dir es :: up, snd e)).
  1,3: rewrite components_join, resolve_from_app, Hres by done;
       cbn [resolve_from]; rewrite child_entry; [done|apply Hwf|done].
  - destruct (snd e) as [[sz1|] c1|es1]; try done.
    destruct Hp as [[= <- <-]|[]]. exists c1. unfold resolve.
    by rewrite Hchild, endswith_join.
  - destruct (snd e) as [sz1 c1|es1] eqn:Ee; [done|].
    rewrite <- Ee in Hp, Hchild, Hwfe. by apply (IH e Hin (join top (fst e)) (Dir es :: up)).
Qed.

(** X24: in a well-formed tree every pair that [iter_files] yields names a file
    of the tree and carries the size of that file: the path resolves again,
    to a file of that very size. *)
Theorem iter_files_yields_files (root : node) (path p : string) (sz : Z) :
  well_formed root ->
  In (p, sz) (iter_files root path) ->
  exists c, resolve root p = Some (File (Some sz) c).
Proof.
  intros Hwf. unfold iter_files.
  destruct (resolve root path) as [[[n|] c|es]|] eqn:Hres; try done.
  - intros [[= <- <-]|[]]. eauto.
  - unfold resolve in Hres.
    destruct (resolve_from [] root (components path)) as [[up d]|] eqn:E; [|done].
    assert (d = Dir es) as ->.
    { destruct d; [by destruct (Py.endswith path "/")|congruence]. }
    destruct (resolve_from_well_formed _ _ _ _ _ E Hwf) as [Hd _]; [done|].
    by apply (walk_sound root (Dir es) path up).
Qed.

Lemma iter_files_yields_files_witness :
  well_formed (fs env_C) /\
  In ("/data/note.txt", 17) (iter_files (fs env_C) "/data") /\
  exists c, resolve (fs env_C) "/data/note.txt" = Some (File (Some 17) c).
Proof.
  assert (Hwf : well_formed (fs env_C)).
  { simpl. repeat split; try discriminate; repeat constructor; set_solver. }
  assert (Hin : In ("/data/note.txt", 17) (iter_files (fs env_C) "/data")).
  { right. left. reflexivity. }
  split; [exact Hwf|]. split; [exact Hin|].
  exact (iter_files_yields_files (fs env_C) "/data" "/data/note.txt" 17 Hwf Hin).
Defined.
